(** * vue3-game-analytics: the event buffering and delivery pipeline

    A shallow embedding of [src/utils/circular-buffer.ts], of the sampling
    and identifier helpers of [src/utils/index.ts] and of the Pinia store
    of [src/store/analytics-store.ts], with the properties of the buffering
    and delivery pipeline proved over it.

    Conventions of the embedding.
    - A JavaScript object mutated in place becomes a record threaded
      through the functions: an operation takes the record before and
      returns the record after (with its result, where it has one).
    - A [number] that the code only counts with ([size], [overflowCount],
      [failedSubmissions], array indices) is a [nat]; a number that comes
      from the configuration or the clock is a [Z]; the sampling rate and
      the results of [Math.random()] are rationals ([Q]): every finite
      double is a rational and [<], [<=] agree on them.  [NaN], infinities
      and non-integral sizes are outside the model.
    - An optional property ([x?: T]) is an [option]; a property that is
      present holds a value ([None] is "absent", there is no separate
      "present but undefined").
    - [console] output ([logDebug], [console.error]) is not part of the
      modelled state and is left out. *)

From Stdlib Require Import QArith Ascii String.
From stdpp Require Import base list strings gmap pretty.

Local Open Scope nat_scope.

(** ** [src/utils/circular-buffer.ts] *)

Module CircularBuffer.

Inductive OverflowStrategy : Set :=
  | discard_oldest
  | discard_newest
  | error.

(** What a call of [push] does to its caller: it returns a boolean or it
    throws [new Error(msg)]. *)
Inductive Completion : Type :=
  | Returned (admitted : bool)
  | Thrown (message : string).

Section Buffer.
Context {T : Type}.

(** The private fields of the class.  A cell of [buffer] is [T | null]:
    [None] is [null]. *)
Record t : Type := Build {
  buffer : list (option T);
  head : nat;
  tail : nat;
  size : nat;
  capacity : nat;
  overflowStrategy : OverflowStrategy;
  overflowCount : nat
}.

(** [constructor(options)]: [new Array(capacity).fill(null)], all
    counters at their initialisers. *)
Definition new (capacity0 : nat) (strategy : OverflowStrategy) : t :=
  {| buffer := replicate capacity0 None;
     head := 0; tail := 0; size := 0;
     capacity := capacity0;
     overflowStrategy := strategy;
     overflowCount := 0 |}.

(** [dequeue()]: the buffer after, and the item returned ([None] is the
    [null] of the empty buffer). *)
Definition dequeue (b : t) : t * option T :=
  if size b =? 0 then (b, None)
  else
    let item := mjoin (buffer b !! head b) in
    ({| buffer := <[head b := None]> (buffer b);
        head := (head b + 1) mod capacity b;
        tail := tail b;
        size := size b - 1;
        capacity := capacity b;
        overflowStrategy := overflowStrategy b;
        overflowCount := overflowCount b |}, item).

(** The tail of [push], after the [if (this.size === this.capacity)]
    block has fallen through. *)
Definition store_at_tail (item : T) (b : t) : t :=
  {| buffer := <[tail b := Some item]> (buffer b);
     head := head b;
     tail := (tail b + 1) mod capacity b;
     size := size b + 1;
     capacity := capacity b;
     overflowStrategy := overflowStrategy b;
     overflowCount := overflowCount b |}.

(** [push(item)]: the buffer after the call and how the call completed. *)
Definition push (item : T) (b : t) : t * Completion :=
  if size b =? capacity b then
    match overflowStrategy b with
    | discard_oldest =>
        let b' := fst (dequeue b) in
        (store_at_tail item b', Returned true)
    | discard_newest =>
        ({| buffer := buffer b; head := head b; tail := tail b;
            size := size b; capacity := capacity b;
            overflowStrategy := overflowStrategy b;
            overflowCount := overflowCount b + 1 |}, Returned false)
    | error =>
        (b, Thrown "CircularBuffer overflow: buffer is full"%string)
    end
  else (store_at_tail item b, Returned true).

(** The [for] loop of [getItems]: [n] iterations left, [current] the
    index read next, [items] the array built so far. *)
Fixpoint getItems_loop (b : t) (n current : nat) (items : list T) : list T :=
  match n with
  | 0 => items
  | S n' =>
      let items' :=
        match mjoin (buffer b !! current) with
        | Some item => items ++ [item]
        | None => items
        end in
      getItems_loop b n' ((current + 1) mod capacity b) items'
  end.

Definition getItems (b : t) : list T :=
  if size b =? 0 then [] else getItems_loop b (size b) (head b) [].

Definition clear (b : t) : t :=
  {| buffer := replicate (length (buffer b)) None;
     head := 0; tail := 0; size := 0;
     capacity := capacity b;
     overflowStrategy := overflowStrategy b;
     overflowCount := overflowCount b |}.

Definition drain (b : t) : t * list T := (clear b, getItems b).

Definition isEmpty (b : t) : bool := size b =? 0.
Definition isFull (b : t) : bool := size b =? capacity b.
Definition getSize (b : t) : nat := size b.
Definition getCapacity (b : t) : nat := capacity b.
Definition getOverflowCount (b : t) : nat := overflowCount b.

(** A run of pushes, each on the buffer the previous one left; a push
    that throws leaves the buffer as it is and the run goes on (the
    caller catches). *)
Definition push_all (items : list T) (b : t) : t :=
  foldl (fun acc item => fst (push item acc)) b items.

(** The abstraction the proofs go through: [holds b l] when the live
    cells of [b], read from [head] on and wrapping at [capacity], are
    the items of [l], oldest first. *)
Definition well_formed (b : t) : Prop :=
  0 < capacity b /\ length (buffer b) = capacity b /\ head b < capacity b
  /\ size b <= capacity b /\ tail b = (head b + size b) mod capacity b.

Definition holds (b : t) (l : list T) : Prop :=
  well_formed b /\ size b = length l
  /\ forall i item, l !! i = Some item ->
       buffer b !! ((head b + i) mod capacity b) = Some (Some item).

End Buffer.

Arguments t : clear implicits.

End CircularBuffer.

(** ** [src/types.ts] *)

Module Types.

(** [environmentData], [gameState], [elementData] and [metadata] are bags
    of descriptors that the store copies and never inspects. *)
Definition Descriptors : Type := list (string * string).

Record Coordinates : Type := {
  x : Z;
  y : Z;
  screenX : option Z;
  screenY : option Z
}.

(** The [error] property of an event; a [code] is kept as its string. *)
Record ErrorContext : Type := {
  message : option string;
  stack : option string;
  code : option string
}.

(** [GameAnalyticsEvent]. *)
Record GameAnalyticsEvent : Type := {
  id : option string;
  timestamp : Z;
  type : string;
  gameId : string;
  playId : string;
  gameState : option Descriptors;
  target : option string;
  coordinates : option Coordinates;
  duration : option Z;
  elementData : option Descriptors;
  environmentData : option Descriptors;
  metadata : option Descriptors;
  error : option ErrorContext
}.

(** [Partial<GameAnalyticsEvent>]: every property optional. *)
Record PartialEvent : Type := {
  p_id : option string;
  p_timestamp : option Z;
  p_type : option string;
  p_gameId : option string;
  p_playId : option string;
  p_gameState : option Descriptors;
  p_target : option string;
  p_coordinates : option Coordinates;
  p_duration : option Z;
  p_elementData : option Descriptors;
  p_environmentData : option Descriptors;
  p_metadata : option Descriptors;
  p_error : option ErrorContext
}.

(** The partial event with no property at all, [{}]. *)
Definition emptyPartial : PartialEvent :=
  {| p_id := None; p_timestamp := None; p_type := None; p_gameId := None;
     p_playId := None; p_gameState := None; p_target := None;
     p_coordinates := None; p_duration := None; p_elementData := None;
     p_environmentData := None; p_metadata := None; p_error := None |}.

(** [GameAnalyticsOptions].  A call of [eventTransformer] returns the
    transformed event or throws ([None]). *)
Record GameAnalyticsOptions : Type := {
  apiEndpoint : string;
  batchSize : option Z;
  flushInterval : option Z;
  maxQueueSize : option Z;
  o_gameId : string;
  o_playId : string;
  trackClicks : option bool;
  trackTouches : option bool;
  trackKeyboard : option bool;
  trackErrors : option bool;
  trackNetwork : option bool;
  trackPerformance : option bool;
  sampleRate : option Q;
  collectEnvironmentData : option bool;
  throttleHighFrequencyEvents : option bool;
  throttleInterval : option Z;
  debug : option bool;
  verboseLogging : option bool;
  visibleTracking : option bool;
  anonymizeIp : option bool;
  respectDoNotTrack : option bool;
  consentRequired : option bool;
  eventTransformer : option (GameAnalyticsEvent -> option GameAnalyticsEvent)
}.

Record BufferInfo : Type := {
  capacity : nat;
  size : nat;
  overflowCount : nat
}.

Record NetworkStatus : Type := {
  isOnline : bool;
  lastConnectionType : string
}.

(** [GameAnalyticsState]. *)
Record GameAnalyticsState : Type := {
  events : list GameAnalyticsEvent;
  config : GameAnalyticsOptions;
  isEnabled : bool;
  isDebugMode : bool;
  hasConsent : bool;
  bufferInfo : BufferInfo;
  networkStatus : NetworkStatus;
  pendingFlush : bool;
  failedSubmissions : nat;
  lastFlushTime : option Z
}.

(** [AnalyticsErrorCode.API_SUBMISSION_FAILED]. *)
Definition API_SUBMISSION_FAILED : string := "API_SUBMISSION_FAILED"%string.

End Types.

(** ** JavaScript operators the code relies on *)

Module JS.

(** Truthiness of an optional string, number and boolean: [undefined],
    [''], [0] and [false] are falsy. *)
Definition truthy_string (s : option string) : bool :=
  match s with
  | Some EmptyString => false
  | Some _ => true
  | None => false
  end.

Definition truthy_number (n : option Z) : bool :=
  match n with
  | Some z => negb (z =? 0)%Z
  | None => false
  end.

Definition truthy_bool (b : option bool) : bool :=
  match b with
  | Some v => v
  | None => false
  end.

(** [a || b] where [a] is an optional string and [b] a string. *)
Definition or_string (a : option string) (b : string) : string :=
  match a with
  | Some s => if truthy_string a then s else b
  | None => b
  end.

(** [{...defaults, ...overrides}] on one optional property. *)
Definition spread_field {A : Type} (default override : option A) : option A :=
  match override with
  | Some v => Some v
  | None => default
  end.

(** [{required, ...overrides}] on a property the target always has. *)
Definition spread_required {A : Type} (default : A) (override : option A) : A :=
  match override with
  | Some v => v
  | None => default
  end.

(** [Array.prototype.slice(start)] for an integral [start]: a negative
    [start] counts from the end, and both ends are clamped. *)
Definition slice {A : Type} (start : Z) (l : list A) : list A :=
  let len := Z.of_nat (length l) in
  let k := if (start <? 0)%Z then Z.max (len + start) 0 else Z.min start len in
  drop (Z.to_nat k) l.

(** [x | 0] on a number of magnitude below 2^31: truncation towards zero. *)
Definition to_int32 (q : Q) : Z := Z.quot (Qnum q) (Z.pos (Qden q)).

(** [a === b] on two optional strings. *)
Definition strict_eq (a b : option string) : bool := bool_decide (a = b).

End JS.

(** ** [src/utils/index.ts] *)

Module Utils.
Import Types.

(** [Math.random()]: the generator is a fixed sequence of numbers in
    [0,1) of which [drawn] have been handed out. *)
Record RandomSource : Type := {
  sequence : nat -> Q;
  drawn : nat
}.

Definition Math_random (r : RandomSource) : Q * RandomSource :=
  (sequence r (drawn r), {| sequence := sequence r; drawn := S (drawn r) |}).

(** [v.toString(16)] for [0 <= v < 16]. *)
Definition toString16 (v : Z) : Ascii.ascii :=
  nth (Z.to_nat v)
      (String.list_ascii_of_string "0123456789abcdef"%string) "?"%char.

(** The callback of [replace(/[xy]/g, ...)] threaded over the template,
    left to right: one draw per [x] or [y]. *)
Fixpoint replace_xy (template : string) (r : RandomSource) : string * RandomSource :=
  match template with
  | EmptyString => (EmptyString, r)
  | String c rest =>
      if bool_decide (c = "x"%char) || bool_decide (c = "y"%char) then
        let '(u, r1) := Math_random r in
        let n := JS.to_int32 (u * 16) in
        let v := if bool_decide (c = "x"%char) then n
                 else Z.lor (Z.land n 3) 8 in
        let '(out, r2) := replace_xy rest r1 in
        (String (toString16 v) out, r2)
      else
        let '(out, r2) := replace_xy rest r in
        (String c out, r2)
  end.

Definition generateUUID (r : RandomSource) : string * RandomSource :=
  replace_xy "xxxxxxxx-xxxx-4xxx-yxxx-xxxxxxxxxxxx"%string r.

Arguments generateUUID : simpl never.

(** [shouldSampleEvent(rate)]; [Math.random()] is called on the last
    line only. *)
Definition shouldSampleEvent (rate : Q) (r : RandomSource) : bool * RandomSource :=
  if Qle_bool 1 rate then (true, r)
  else if Qle_bool rate 0 then (false, r)
  else
    let '(u, r1) := Math_random r in
    (Qle_bool u rate, r1).

(** [localStorage].  A stored string is kept as what [JSON.parse] makes
    of it: an array of events, or anything else (another JSON value or
    text that does not parse).  [writable = false] is a store whose
    [setItem] throws (quota exceeded). *)
Inductive StoredValue : Type :=
  | StoredEvents (l : list GameAnalyticsEvent)
  | StoredOther (raw : string).

Record LocalStorage : Type := {
  entries : gmap string StoredValue;
  writable : bool
}.

Definition setItem (key : string) (v : StoredValue) (ls : LocalStorage) : option LocalStorage :=
  if writable ls
  then Some {| entries := <[key := v]> (entries ls); writable := writable ls |}
  else None.

Definition removeItem (key : string) (ls : LocalStorage) : LocalStorage :=
  {| entries := delete key (entries ls); writable := writable ls |}.

Definition getItem (key : string) (ls : LocalStorage) : option StoredValue :=
  entries ls !! key.

(** [persistToStorage(key, data)] for an array of events: the [catch]
    turns a throwing [setItem] into [false]. *)
Definition persistToStorage (key : string) (data : list GameAnalyticsEvent)
    (ls : LocalStorage) : LocalStorage * bool :=
  match setItem key (StoredEvents data) ls with
  | Some ls' => (ls', true)
  | None => (ls, false)
  end.

(** [retrieveFromStorage<GameAnalyticsEvent[]>(key)] followed by the
    caller's [storedEvents && Array.isArray(storedEvents)]: the array, or
    [None] where the key is missing or holds no array. *)
Definition retrieveFromStorage (key : string) (ls : LocalStorage)
    : option (list GameAnalyticsEvent) :=
  match getItem key ls with
  | Some (StoredEvents l) => Some l
  | Some (StoredOther _) => None
  | None => None
  end.

End Utils.

(** ** [src/store/analytics-store.ts] *)

Module Store.
Import Types Utils.

Definition STORAGE_KEY_EVENTS : string := "vue3-game-analytics-events"%string.
Definition STORAGE_KEY_CONFIG : string := "vue3-game-analytics-config"%string.

(** [DEFAULT_OPTIONS], with the three required strings as the initial
    state fills them in. *)
Definition DEFAULT_OPTIONS : GameAnalyticsOptions :=
  {| apiEndpoint := EmptyString;
     batchSize := Some 50%Z;
     flushInterval := Some 60000%Z;
     maxQueueSize := Some 1000%Z;
     o_gameId := EmptyString;
     o_playId := EmptyString;
     trackClicks := Some true;
     trackTouches := Some true;
     trackKeyboard := Some true;
     trackErrors := Some true;
     trackNetwork := Some true;
     trackPerformance := Some false;
     sampleRate := Some 1%Q;
     collectEnvironmentData := Some true;
     throttleHighFrequencyEvents := Some true;
     throttleInterval := Some 100%Z;
     debug := Some false;
     verboseLogging := Some false;
     visibleTracking := Some false;
     anonymizeIp := Some true;
     respectDoNotTrack := Some true;
     consentRequired := Some true;
     eventTransformer := None |}.

(** [{...DEFAULT_OPTIONS, ...options}]. *)
Definition merge_options (defaults options : GameAnalyticsOptions) : GameAnalyticsOptions :=
  {| apiEndpoint := apiEndpoint options;
     batchSize := JS.spread_field (batchSize defaults) (batchSize options);
     flushInterval := JS.spread_field (flushInterval defaults) (flushInterval options);
     maxQueueSize := JS.spread_field (maxQueueSize defaults) (maxQueueSize options);
     o_gameId := o_gameId options;
     o_playId := o_playId options;
     trackClicks := JS.spread_field (trackClicks defaults) (trackClicks options);
     trackTouches := JS.spread_field (trackTouches defaults) (trackTouches options);
     trackKeyboard := JS.spread_field (trackKeyboard defaults) (trackKeyboard options);
     trackErrors := JS.spread_field (trackErrors defaults) (trackErrors options);
     trackNetwork := JS.spread_field (trackNetwork defaults) (trackNetwork options);
     trackPerformance := JS.spread_field (trackPerformance defaults) (trackPerformance options);
     sampleRate := JS.spread_field (sampleRate defaults) (sampleRate options);
     collectEnvironmentData :=
       JS.spread_field (collectEnvironmentData defaults) (collectEnvironmentData options);
     throttleHighFrequencyEvents :=
       JS.spread_field (throttleHighFrequencyEvents defaults) (throttleHighFrequencyEvents options);
     throttleInterval := JS.spread_field (throttleInterval defaults) (throttleInterval options);
     debug := JS.spread_field (debug defaults) (debug options);
     verboseLogging := JS.spread_field (verboseLogging defaults) (verboseLogging options);
     visibleTracking := JS.spread_field (visibleTracking defaults) (visibleTracking options);
     anonymizeIp := JS.spread_field (anonymizeIp defaults) (anonymizeIp options);
     respectDoNotTrack := JS.spread_field (respectDoNotTrack defaults) (respectDoNotTrack options);
     consentRequired := JS.spread_field (consentRequired defaults) (consentRequired options);
     eventTransformer := JS.spread_field (eventTransformer defaults) (eventTransformer options) |}.

(** [BUFFER_CONFIG.capacity]. *)
Definition BUFFER_CAPACITY : nat := 1000.

(** [state: () => ({...})]. *)
Definition initial_state : GameAnalyticsState :=
  {| events := [];
     config := DEFAULT_OPTIONS;
     isEnabled := false;
     isDebugMode := false;
     hasConsent := false;
     bufferInfo := {| capacity := BUFFER_CAPACITY; size := 0; overflowCount := 0 |};
     networkStatus := {| isOnline := true; lastConnectionType := "unknown"%string |};
     pendingFlush := false;
     failedSubmissions := 0;
     lastFlushTime := None |}.

(** Assignments to one property of the state. *)
Definition set_events (v : list GameAnalyticsEvent) (s : GameAnalyticsState) : GameAnalyticsState :=
  {| events := v; config := config s; isEnabled := isEnabled s;
     isDebugMode := isDebugMode s; hasConsent := hasConsent s;
     bufferInfo := bufferInfo s; networkStatus := networkStatus s;
     pendingFlush := pendingFlush s; failedSubmissions := failedSubmissions s;
     lastFlushTime := lastFlushTime s |}.

Definition set_config (v : GameAnalyticsOptions) (s : GameAnalyticsState) : GameAnalyticsState :=
  {| events := events s; config := v; isEnabled := isEnabled s;
     isDebugMode := isDebugMode s; hasConsent := hasConsent s;
     bufferInfo := bufferInfo s; networkStatus := networkStatus s;
     pendingFlush := pendingFlush s; failedSubmissions := failedSubmissions s;
     lastFlushTime := lastFlushTime s |}.

Definition set_isEnabled (v : bool) (s : GameAnalyticsState) : GameAnalyticsState :=
  {| events := events s; config := config s; isEnabled := v;
     isDebugMode := isDebugMode s; hasConsent := hasConsent s;
     bufferInfo := bufferInfo s; networkStatus := networkStatus s;
     pendingFlush := pendingFlush s; failedSubmissions := failedSubmissions s;
     lastFlushTime := lastFlushTime s |}.

Definition set_isDebugMode (v : bool) (s : GameAnalyticsState) : GameAnalyticsState :=
  {| events := events s; config := config s; isEnabled := isEnabled s;
     isDebugMode := v; hasConsent := hasConsent s;
     bufferInfo := bufferInfo s; networkStatus := networkStatus s;
     pendingFlush := pendingFlush s; failedSubmissions := failedSubmissions s;
     lastFlushTime := lastFlushTime s |}.

Definition set_hasConsent (v : bool) (s : GameAnalyticsState) : GameAnalyticsState :=
  {| events := events s; config := config s; isEnabled := isEnabled s;
     isDebugMode := isDebugMode s; hasConsent := v;
     bufferInfo := bufferInfo s; networkStatus := networkStatus s;
     pendingFlush := pendingFlush s; failedSubmissions := failedSubmissions s;
     lastFlushTime := lastFlushTime s |}.

Definition set_bufferInfo (v : BufferInfo) (s : GameAnalyticsState) : GameAnalyticsState :=
  {| events := events s; config := config s; isEnabled := isEnabled s;
     isDebugMode := isDebugMode s; hasConsent := hasConsent s;
     bufferInfo := v; networkStatus := networkStatus s;
     pendingFlush := pendingFlush s; failedSubmissions := failedSubmissions s;
     lastFlushTime := lastFlushTime s |}.

Definition set_networkStatus (v : NetworkStatus) (s : GameAnalyticsState) : GameAnalyticsState :=
  {| events := events s; config := config s; isEnabled := isEnabled s;
     isDebugMode := isDebugMode s; hasConsent := hasConsent s;
     bufferInfo := bufferInfo s; networkStatus := v;
     pendingFlush := pendingFlush s; failedSubmissions := failedSubmissions s;
     lastFlushTime := lastFlushTime s |}.

Definition set_pendingFlush (v : bool) (s : GameAnalyticsState) : GameAnalyticsState :=
  {| events := events s; config := config s; isEnabled := isEnabled s;
     isDebugMode := isDebugMode s; hasConsent := hasConsent s;
     bufferInfo := bufferInfo s; networkStatus := networkStatus s;
     pendingFlush := v; failedSubmissions := failedSubmissions s;
     lastFlushTime := lastFlushTime s |}.

Definition set_failedSubmissions (v : nat) (s : GameAnalyticsState) : GameAnalyticsState :=
  {| events := events s; config := config s; isEnabled := isEnabled s;
     isDebugMode := isDebugMode s; hasConsent := hasConsent s;
     bufferInfo := bufferInfo s; networkStatus := networkStatus s;
     pendingFlush := pendingFlush s; failedSubmissions := v;
     lastFlushTime := lastFlushTime s |}.

Definition set_lastFlushTime (v : option Z) (s : GameAnalyticsState) : GameAnalyticsState :=
  {| events := events s; config := config s; isEnabled := isEnabled s;
     isDebugMode := isDebugMode s; hasConsent := hasConsent s;
     bufferInfo := bufferInfo s; networkStatus := networkStatus s;
     pendingFlush := pendingFlush s; failedSubmissions := failedSubmissions s;
     lastFlushTime := v |}.

(** [this.bufferInfo.size = n] and [this.bufferInfo.overflowCount++]. *)
Definition set_size (n : nat) (s : GameAnalyticsState) : GameAnalyticsState :=
  set_bufferInfo {| capacity := capacity (bufferInfo s); size := n;
                    overflowCount := overflowCount (bufferInfo s) |} s.

Definition incr_overflowCount (s : GameAnalyticsState) : GameAnalyticsState :=
  set_bufferInfo {| capacity := capacity (bufferInfo s); size := size (bufferInfo s);
                    overflowCount := overflowCount (bufferInfo s) + 1 |} s.

(** What the store reads from the browser during one call: the clock,
    the Do-Not-Track signals, [navigator.onLine] and the result of
    [getEnvironmentData()] (an external collaborator, taken as given). *)
Record Browser : Type := {
  now : Z;
  navigator_doNotTrack : option string;
  window_doNotTrack : option string;
  navigator_msDoNotTrack : option string;
  navigator_onLine : bool;
  getEnvironmentData : Descriptors
}.

(** One call of [fetch] as [flushEvents] makes it. *)
Record FetchCall : Type := {
  url : string;
  method : string;
  header_Content_Type : string;
  header_X_Game_ID : string;
  header_X_Play_ID : string;
  body_events : list GameAnalyticsEvent
}.

(** How the promise of [fetch] settles: fulfilled with a response of some
    status, or rejected (a transport error) with a message. *)
Inductive FetchOutcome : Type :=
  | Fulfilled (status : Z)
  | Rejected (reason : string).

(** [response.ok]. *)
Definition response_ok (status : Z) : bool :=
  (200 <=? status)%Z && (status <=? 299)%Z.

(** Everything the store's actions read or write.
    - [suspended]: the calls of [flushEvents] that wait at
      [await fetch(...)], each with its local [eventsToSend];
    - [fetchCalls]: the requests issued so far, oldest first;
    - [idleCallbacks]: the [saveEventsToStorage] callbacks handed to
      [runWhenIdle] and not yet run;
    - [intervals]: the periods of the timers armed by [setInterval];
    - [unloadListeners]: the [beforeunload] listeners registered. *)
Record World : Type := {
  store : GameAnalyticsState;
  localStorage : LocalStorage;
  random : RandomSource;
  fetchCalls : list FetchCall;
  suspended : list (list GameAnalyticsEvent);
  idleCallbacks : nat;
  intervals : list Z;
  unloadListeners : nat
}.

Definition with_store (f : GameAnalyticsState -> GameAnalyticsState) (w : World) : World :=
  {| store := f (store w); localStorage := localStorage w; random := random w;
     fetchCalls := fetchCalls w; suspended := suspended w;
     idleCallbacks := idleCallbacks w; intervals := intervals w;
     unloadListeners := unloadListeners w |}.

Definition with_localStorage (f : LocalStorage -> LocalStorage) (w : World) : World :=
  {| store := store w; localStorage := f (localStorage w); random := random w;
     fetchCalls := fetchCalls w; suspended := suspended w;
     idleCallbacks := idleCallbacks w; intervals := intervals w;
     unloadListeners := unloadListeners w |}.

Definition with_random (r : RandomSource) (w : World) : World :=
  {| store := store w; localStorage := localStorage w; random := r;
     fetchCalls := fetchCalls w; suspended := suspended w;
     idleCallbacks := idleCallbacks w; intervals := intervals w;
     unloadListeners := unloadListeners w |}.

Definition with_suspended (l : list (list GameAnalyticsEvent)) (w : World) : World :=
  {| store := store w; localStorage := localStorage w; random := random w;
     fetchCalls := fetchCalls w; suspended := l;
     idleCallbacks := idleCallbacks w; intervals := intervals w;
     unloadListeners := unloadListeners w |}.

(** [fetch(this.config.apiEndpoint, {...})]: the request goes out. *)
Definition fetch (call : FetchCall) (w : World) : World :=
  {| store := store w; localStorage := localStorage w; random := random w;
     fetchCalls := fetchCalls w ++ [call]; suspended := suspended w;
     idleCallbacks := idleCallbacks w; intervals := intervals w;
     unloadListeners := unloadListeners w |}.

(** [runWhenIdle(() => this.saveEventsToStorage())]. *)
Definition runWhenIdle (w : World) : World :=
  {| store := store w; localStorage := localStorage w; random := random w;
     fetchCalls := fetchCalls w; suspended := suspended w;
     idleCallbacks := S (idleCallbacks w); intervals := intervals w;
     unloadListeners := unloadListeners w |}.

(** A page that has just loaded the store, over whatever an earlier page
    left in [localStorage]. *)
Definition initial_world (ls : LocalStorage) (r : RandomSource) : World :=
  {| store := initial_state; localStorage := ls; random := r;
     fetchCalls := []; suspended := [];
     idleCallbacks := 0; intervals := []; unloadListeners := 0 |}.

(** *** Getters *)

Definition isTrackingAllowed (br : Browser) (s : GameAnalyticsState) : bool :=
  if negb (isEnabled s) then false
  else if JS.truthy_bool (consentRequired (config s)) && negb (hasConsent s) then false
  else if JS.truthy_bool (respectDoNotTrack (config s)) then
    let doNotTrack :=
      JS.strict_eq (navigator_doNotTrack br) (Some "1"%string)
      || JS.strict_eq (window_doNotTrack br) (Some "1"%string)
      || JS.strict_eq (navigator_msDoNotTrack br) (Some "1"%string) in
    if doNotTrack then false else true
  else true.

Definition eventCount (s : GameAnalyticsState) : nat := length (events s).

Definition shouldShowDebugInfo (s : GameAnalyticsState) : bool :=
  isDebugMode s || JS.truthy_bool (debug (config s))
  || JS.truthy_bool (visibleTracking (config s)).

(** *** Actions *)

(** [saveEventsToStorage()]. *)
Definition saveEventsToStorage (w : World) : World :=
  if 0 <? length (events (store w)) then
    with_localStorage
      (fun ls => fst (persistToStorage STORAGE_KEY_EVENTS (events (store w)) ls)) w
  else w.

(** [clearEvents()]. *)
Definition clearEvents (w : World) : World :=
  with_store (fun s => set_size 0 (set_events [] s)) w.

(** [filterEvents(filterFn)]. *)
Definition filterEvents (filterFn : GameAnalyticsEvent -> bool) (w : World) : World :=
  with_store (fun s =>
    let evs := List.filter filterFn (events s) in
    set_size (length evs) (set_events evs s)) w.

(** [flushEvents()] from the call to the [await]: the guards, the flag,
    the snapshot [eventsToSend] and the request; the call is then parked
    in [suspended] until the promise settles. *)
Definition flushEvents (w : World) : World :=
  let s := store w in
  if (length (events s) =? 0) || pendingFlush s then w
  else if negb (isOnline (networkStatus s)) then w
  else
    let w1 := with_store (set_pendingFlush true) w in
    let eventsToSend := events (store w1) in
    let cfg := config (store w1) in
    let w2 := fetch {| url := apiEndpoint cfg;
                       method := "POST"%string;
                       header_Content_Type := "application/json"%string;
                       header_X_Game_ID := o_gameId cfg;
                       header_X_Play_ID := o_playId cfg;
                       body_events := eventsToSend |} w1 in
    with_suspended (suspended w2 ++ [eventsToSend]) w2.

(** [addEventToQueue(event)]. *)
Definition addEventToQueue (event : GameAnalyticsEvent) (w : World) : World :=
  let w1 := with_store (fun s =>
              let evs := events s ++ [event] in
              set_size (length evs) (set_events evs s)) w in
  let cfg := config (store w1) in
  let w2 :=
    match maxQueueSize cfg with
    | Some m =>
        if JS.truthy_number (Some m)
           && (Z.of_nat (length (events (store w1))) >? m)%Z
        then with_store (fun s =>
               let evs := JS.slice (- m) (events s) in
               incr_overflowCount (set_size (length evs) (set_events evs s))) w1
        else w1
    | None => w1
    end in
  let w3 :=
    match batchSize cfg with
    | Some n =>
        if JS.truthy_number (Some n)
           && (Z.of_nat (length (events (store w2))) >=? n)%Z
        then flushEvents w2
        else w2
    | None => w2
    end in
  runWhenIdle w3.

(** The object literal of [trackEvent] and the statement after it:
    [{id: generateUUID(), timestamp: Date.now(), type: ..., gameId: ...,
    playId: ..., ...event}], then the environment data.  [uuid] is the
    result of the call of [generateUUID()]. *)
Definition fullEvent (br : Browser) (cfg : GameAnalyticsOptions) (uuid : string)
    (event : PartialEvent) : GameAnalyticsEvent :=
  let literal :=
    {| id := JS.spread_field (Some uuid) (p_id event);
       timestamp := JS.spread_required (now br) (p_timestamp event);
       type := JS.spread_required (JS.or_string (p_type event) "custom"%string)
                                  (p_type event);
       gameId := JS.spread_required (JS.or_string (p_gameId event) (o_gameId cfg))
                                    (p_gameId event);
       playId := JS.spread_required (JS.or_string (p_playId event) (o_playId cfg))
                                    (p_playId event);
       gameState := p_gameState event;
       target := p_target event;
       coordinates := p_coordinates event;
       duration := p_duration event;
       elementData := p_elementData event;
       environmentData := p_environmentData event;
       metadata := p_metadata event;
       error := p_error event |} in
  if JS.truthy_bool (collectEnvironmentData cfg)
     && negb (bool_decide (is_Some (environmentData literal)))
  then {| id := id literal; timestamp := timestamp literal; type := type literal;
          gameId := gameId literal; playId := playId literal;
          gameState := gameState literal; target := target literal;
          coordinates := coordinates literal; duration := duration literal;
          elementData := elementData literal;
          environmentData := Some (getEnvironmentData br);
          metadata := metadata literal; error := error literal |}
  else literal.

(** [a < b] on numbers. *)
Definition number_lt (a b : Q) : bool := negb (Qle_bool b a).

(** The sampling test of [trackEvent]:
    [sampleRate !== undefined && sampleRate < 1 && !shouldSampleEvent(sampleRate)],
    with the generator after it. *)
Definition sampledOut (cfg : GameAnalyticsOptions) (r : RandomSource) : bool * RandomSource :=
  match sampleRate cfg with
  | Some rate =>
      if number_lt rate 1 then
        let '(keep, r') := shouldSampleEvent rate r in (negb keep, r')
      else (false, r)
  | None => (false, r)
  end.

(** [trackEvent(event)]. *)
Definition trackEvent (br : Browser) (event : PartialEvent) (w : World) : World :=
  if negb (isTrackingAllowed br (store w)) then w
  else
    let cfg := config (store w) in
    let '(out, r1) := sampledOut cfg (random w) in
    if out then with_random r1 w
    else
      let '(uuid, r2) := generateUUID r1 in
      let w2 := with_random r2 w in
      let full := fullEvent br cfg uuid event in
      match eventTransformer cfg with
      | Some transformer =>
          match transformer full with
          | Some transformedEvent => addEventToQueue transformedEvent w2
          | None => addEventToQueue full w2
          end
      | None => addEventToQueue full w2
      end.

(** The partial event that the [catch] block of [flushEvents] tracks. *)
Definition submission_error_event (message0 : string) : PartialEvent :=
  {| p_id := None; p_timestamp := None; p_type := Some "error"%string;
     p_gameId := None; p_playId := None; p_gameState := None;
     p_target := Some "analytics"%string;
     p_coordinates := None; p_duration := None; p_elementData := None;
     p_environmentData := None; p_metadata := None;
     p_error := Some {| message := Some message0; stack := None;
                        code := Some API_SUBMISSION_FAILED |} |}.

(** [this.events.filter(e => !eventsToSend.some(se => se.id === e.id))]. *)
Definition remove_sent (eventsToSend q : list GameAnalyticsEvent) : list GameAnalyticsEvent :=
  List.filter
    (fun e => negb (existsb (fun se => JS.strict_eq (id se) (id e)) eventsToSend)) q.

(** The rest of the [try] block once the promise has settled: the world
    after, and the message of the error thrown, if one is. *)
Definition flush_try (br : Browser) (eventsToSend : list GameAnalyticsEvent)
    (outcome : FetchOutcome) (w : World) : World * option string :=
  match outcome with
  | Rejected reason => (w, Some reason)
  | Fulfilled status =>
      if negb (response_ok status)
      then (w, Some (String.append "API responded with status "%string (pretty status)))
      else
        let w1 := with_store (fun s =>
                    let evs := remove_sent eventsToSend (events s) in
                    set_lastFlushTime (Some (now br))
                      (set_size (length evs) (set_events evs s))) w in
        (with_localStorage (removeItem STORAGE_KEY_EVENTS) w1, None)
  end.

(** The [catch] block. *)
Definition flush_catch (br : Browser) (message0 : string) (w : World) : World :=
  let w1 := with_store (fun s => set_failedSubmissions (failedSubmissions s + 1) s) w in
  if JS.truthy_bool (trackErrors (config (store w1)))
  then trackEvent br (submission_error_event message0) w1
  else w1.

(** The [finally] block. *)
Definition flush_finally (w : World) : World :=
  with_store (set_pendingFlush false) w.

(** The call of [flushEvents] parked at position [i] resumes with the
    outcome of its [fetch]: [try] from the [await] on, [catch] if it
    threw, [finally].  Nothing resumes where no call is parked. *)
Definition flushEvents_resume (br : Browser) (i : nat) (outcome : FetchOutcome)
    (w : World) : World :=
  match suspended w !! i with
  | None => w
  | Some eventsToSend =>
      let w0 := with_suspended (delete i (suspended w)) w in
      let '(w1, thrown) := flush_try br eventsToSend outcome w0 in
      let w2 := match thrown with
                | Some message0 => flush_catch br message0 w1
                | None => w1
                end in
      flush_finally w2
  end.

(** The callback of [setInterval] in [initialize]. *)
Definition interval_callback (w : World) : World :=
  if 0 <? length (events (store w)) then flushEvents w else w.

(** The [beforeunload] listener of [initialize]. *)
Definition beforeunload_listener (br : Browser) (w : World) : World :=
  let w1 := saveEventsToStorage w in
  if (0 <? length (events (store w1))) && navigator_onLine br
  then flushEvents w1 else w1.

(** One callback handed to [runWhenIdle] runs. *)
Definition idle_callback (w : World) : World :=
  match idleCallbacks w with
  | 0 => w
  | S n =>
      saveEventsToStorage
        {| store := store w; localStorage := localStorage w; random := random w;
           fetchCalls := fetchCalls w; suspended := suspended w;
           idleCallbacks := n; intervals := intervals w;
           unloadListeners := unloadListeners w |}
  end.

(** [initialize(options)]. *)
Definition initialize (br : Browser) (options : GameAnalyticsOptions) (w : World) : World :=
  let w1 := with_store (set_config (merge_options DEFAULT_OPTIONS options)) w in
  let w2 := with_store (fun s => set_isDebugMode (JS.truthy_bool (debug (config s))) s) w1 in
  let w3 :=
    match retrieveFromStorage STORAGE_KEY_EVENTS (localStorage w2) with
    | Some storedEvents =>
        with_store (fun s => set_size (length storedEvents) (set_events storedEvents s)) w2
    | None => w2
    end in
  let w4 := with_store (set_isEnabled true) w3 in
  let armed :=
    match flushInterval (config (store w4)) with
    | Some ms => if JS.truthy_number (Some ms) && (ms >? 0)%Z
                 then intervals w4 ++ [ms] else intervals w4
    | None => intervals w4
    end in
  let w5 := with_store (fun s =>
              set_networkStatus
                {| isOnline := navigator_onLine br;
                   lastConnectionType := lastConnectionType (networkStatus s) |} s) w4 in
  {| store := store w5; localStorage := localStorage w5; random := random w5;
     fetchCalls := fetchCalls w5; suspended := suspended w5;
     idleCallbacks := idleCallbacks w5; intervals := armed;
     unloadListeners := S (unloadListeners w5) |}.

(** [setConsent(hasConsent)]. *)
Definition setConsent (consent : bool) (w : World) : World :=
  let w1 := with_store (set_hasConsent consent) w in
  if negb consent then
    let w2 := clearEvents w1 in
    let w3 := with_localStorage (removeItem STORAGE_KEY_EVENTS) w2 in
    with_localStorage (removeItem STORAGE_KEY_CONFIG) w3
  else w1.

(** [setDebugMode(enabled)]. *)
Definition setDebugMode (enabled : bool) (w : World) : World :=
  with_store (set_isDebugMode enabled) w.

(** [updateNetworkStatus({isOnline, connectionType})]. *)
Definition updateNetworkStatus (online : bool) (connectionType : string) (w : World) : World :=
  let wasOffline := negb (isOnline (networkStatus (store w))) in
  let w1 := with_store (set_networkStatus
              {| isOnline := online; lastConnectionType := connectionType |}) w in
  if wasOffline && online && (0 <? length (events (store w1)))
  then flushEvents w1 else w1.

(** *** The store as a transition system

    Whatever happens to the store is one of the following: a call of an
    action from outside, or the browser running one of the callbacks the
    store registered (the settling of a [fetch], a timer tick, an idle
    slot, the page unloading).  A callback may run here even where the
    store has not registered it yet: the histories considered include all
    those of the program. *)
Inductive Step : Type :=
  | do_initialize (br : Browser) (options : GameAnalyticsOptions)
  | do_setConsent (consent : bool)
  | do_setDebugMode (enabled : bool)
  | do_updateNetworkStatus (online : bool) (connectionType : string)
  | do_trackEvent (br : Browser) (event : PartialEvent)
  | do_addEventToQueue (event : GameAnalyticsEvent)
  | do_saveEventsToStorage
  | do_flushEvents
  | do_clearEvents
  | do_filterEvents (filterFn : GameAnalyticsEvent -> bool)
  | fetch_settles (br : Browser) (i : nat) (outcome : FetchOutcome)
  | timer_ticks
  | idle_slot
  | page_unloads (br : Browser).

Definition step (a : Step) (w : World) : World :=
  match a with
  | do_initialize br options => initialize br options w
  | do_setConsent consent => setConsent consent w
  | do_setDebugMode enabled => setDebugMode enabled w
  | do_updateNetworkStatus online connectionType =>
      updateNetworkStatus online connectionType w
  | do_trackEvent br event => trackEvent br event w
  | do_addEventToQueue event => addEventToQueue event w
  | do_saveEventsToStorage => saveEventsToStorage w
  | do_flushEvents => flushEvents w
  | do_clearEvents => clearEvents w
  | do_filterEvents filterFn => filterEvents filterFn w
  | fetch_settles br i outcome => flushEvents_resume br i outcome w
  | timer_ticks => interval_callback w
  | idle_slot => idle_callback w
  | page_unloads br => beforeunload_listener br w
  end.

(** *** Predicates the properties are stated with *)

(** [bufferInfo.size] agrees with the queue. *)
Definition size_matches (s : GameAnalyticsState) : Prop :=
  size (bufferInfo s) = length (events s).

(** The mutual exclusion of flushes: [pendingFlush] is set exactly while
    one call of [flushEvents] waits for its [fetch], and never more than
    one does. *)
Definition one_flush_in_flight (w : World) : Prop :=
  length (suspended w) <= 1
  /\ (pendingFlush (store w) = true <-> suspended w <> []).

(** The queue that [addEventToQueue(event)] leaves: the event appended,
    then the oldest events cut off if the limit is exceeded. *)
Definition queue_after_push (cfg : GameAnalyticsOptions)
    (q : list GameAnalyticsEvent) (event : GameAnalyticsEvent) : list GameAnalyticsEvent :=
  match maxQueueSize cfg with
  | Some m =>
      if JS.truthy_number (Some m) && (Z.of_nat (length (q ++ [event])) >? m)%Z
      then JS.slice (- m) (q ++ [event])
      else q ++ [event]
  | None => q ++ [event]
  end.

(** Whether [addEventToQueue(event)] takes its overflow branch. *)
Definition overflows (cfg : GameAnalyticsOptions)
    (q : list GameAnalyticsEvent) (event : GameAnalyticsEvent) : bool :=
  match maxQueueSize cfg with
  | Some m => JS.truthy_number (Some m) && (Z.of_nat (length (q ++ [event])) >? m)%Z
  | None => false
  end.

(** The state that [addEventToQueue(event)] leaves before its auto-flush
    test. *)
Definition store_after_push (event : GameAnalyticsEvent) (s : GameAnalyticsState)
    : GameAnalyticsState :=
  let q := queue_after_push (config s) (events s) event in
  set_bufferInfo
    {| capacity := capacity (bufferInfo s);
       size := length q;
       overflowCount := overflowCount (bufferInfo s)
                        + (if overflows (config s) (events s) event then 1 else 0) |}
    (set_events q s).

(** Two states that agree on everything but the queue, its bookkeeping
    in [bufferInfo] and the [pendingFlush] flag. *)
Definition same_settings (s s' : GameAnalyticsState) : Prop :=
  config s' = config s /\ isEnabled s' = isEnabled s
  /\ isDebugMode s' = isDebugMode s /\ hasConsent s' = hasConsent s
  /\ networkStatus s' = networkStatus s
  /\ failedSubmissions s' = failedSubmissions s
  /\ lastFlushTime s' = lastFlushTime s
  /\ capacity (bufferInfo s') = capacity (bufferInfo s).

(** The message of the error that the [try] block of [flushEvents]
    throws for an outcome of the [fetch], if it throws: the rejection
    itself, or the [Error] made for a response that is not [ok]. *)
Definition thrown_message (outcome : FetchOutcome) : option string :=
  match outcome with
  | Rejected reason => Some reason
  | Fulfilled status =>
      if response_ok status then None
      else Some (String.append "API responded with status "%string (pretty status))
  end.

(** The event that reaches [addEventToQueue] from [trackEvent]: the
    transformer's result, or the untransformed event where there is no
    transformer or it throws. *)
Definition transformed (cfg : GameAnalyticsOptions) (full : GameAnalyticsEvent)
    : GameAnalyticsEvent :=
  match eventTransformer cfg with
  | Some transformer =>
      match transformer full with
      | Some transformedEvent => transformedEvent
      | None => full
      end
  | None => full
  end.

(** Whether a step is the settling of a [fetch]. *)
Definition is_settle (a : Step) : bool :=
  match a with
  | fetch_settles _ _ _ => true
  | _ => false
  end.

(** [addEventToQueue] called on each event of a list in turn. *)
Definition addEventsToQueue (items : list GameAnalyticsEvent) (w : World) : World :=
  foldl (fun acc event => addEventToQueue event acc) w items.

(** A history: the steps in the order they happen. *)
Definition run (history : list Step) (w : World) : World :=
  foldl (fun acc a => step a acc) w history.

End Store.

(** ** Concrete worlds for the scenarios *)

Module Scenario.
Import Types Utils Store.

Definition browser : Browser :=
  {| now := 1700000000000%Z;
     navigator_doNotTrack := None;
     window_doNotTrack := None;
     navigator_msDoNotTrack := None;
     navigator_onLine := true;
     getEnvironmentData := [("deviceType", "desktop")]%string |}.

(** The same browser with the Do-Not-Track signal on. *)
Definition browser_dnt : Browser :=
  {| now := 1700000000000%Z;
     navigator_doNotTrack := Some "1"%string;
     window_doNotTrack := None;
     navigator_msDoNotTrack := None;
     navigator_onLine := true;
     getEnvironmentData := [("deviceType", "desktop")]%string |}.

(** Options that set the required strings, switch the consent
    requirement off and leave the rest to [DEFAULT_OPTIONS]. *)
Definition options : GameAnalyticsOptions :=
  {| apiEndpoint := "https://collector.example/events"%string;
     batchSize := None; flushInterval := None; maxQueueSize := None;
     o_gameId := "game-1"%string; o_playId := "play-1"%string;
     trackClicks := None; trackTouches := None; trackKeyboard := None;
     trackErrors := None; trackNetwork := None; trackPerformance := None;
     sampleRate := None; collectEnvironmentData := None;
     throttleHighFrequencyEvents := None; throttleInterval := None;
     debug := None; verboseLogging := None; visibleTracking := None;
     anonymizeIp := None; respectDoNotTrack := None;
     consentRequired := Some false; eventTransformer := None |}.

(** [options] with a queue limit. *)
Definition options_limit (limit : Z) : GameAnalyticsOptions :=
  merge_options options
    {| apiEndpoint := apiEndpoint options;
       batchSize := None; flushInterval := None; maxQueueSize := Some limit;
       o_gameId := o_gameId options; o_playId := o_playId options;
       trackClicks := None; trackTouches := None; trackKeyboard := None;
       trackErrors := None; trackNetwork := None; trackPerformance := None;
       sampleRate := None; collectEnvironmentData := None;
       throttleHighFrequencyEvents := None; throttleInterval := None;
       debug := None; verboseLogging := None; visibleTracking := None;
       anonymizeIp := None; respectDoNotTrack := None;
       consentRequired := None; eventTransformer := None |}.

(** A generator that cycles through 0/16, 1/16, ..., 15/16. *)
Definition cycling : RandomSource :=
  {| sequence := fun n => (Z.of_nat (n mod 16) # 16)%Q; drawn := 0 |}.

(** A generator that always returns 1/2. *)
Definition halves : RandomSource :=
  {| sequence := fun _ => (1 # 2)%Q; drawn := 0 |}.

Definition empty_storage : LocalStorage := {| entries := ∅; writable := true |}.

(** A partial event that names its target, and one that also brings its
    own [id]. *)
Definition click (on : string) : PartialEvent :=
  {| p_id := None; p_timestamp := None; p_type := Some "click"%string;
     p_gameId := None; p_playId := None; p_gameState := None;
     p_target := Some on;
     p_coordinates := None; p_duration := None; p_elementData := None;
     p_environmentData := None; p_metadata := None; p_error := None |}.

Definition click_with_id (own_id on : string) : PartialEvent :=
  {| p_id := Some own_id; p_timestamp := None; p_type := Some "click"%string;
     p_gameId := None; p_playId := None; p_gameState := None;
     p_target := Some on;
     p_coordinates := None; p_duration := None; p_elementData := None;
     p_environmentData := None; p_metadata := None; p_error := None |}.

(** An event as [addEventToQueue] receives it, with just a type. *)
Definition item (name : string) : GameAnalyticsEvent :=
  {| id := Some name; timestamp := 0%Z; type := name;
     gameId := "game-1"%string; playId := "play-1"%string;
     gameState := None; target := None; coordinates := None; duration := None;
     elementData := None; environmentData := None; metadata := None;
     error := None |}.

(** The store initialised over an empty storage. *)
Definition started : World :=
  initialize browser options (initial_world empty_storage cycling).

(** Three events tracked, then a flush begun. *)
Definition three_tracked : World :=
  run [do_trackEvent browser (click "#a"); do_trackEvent browser (click "#b");
       do_trackEvent browser (click "#c")]%string started.

Definition flushing : World := flushEvents three_tracked.

(** A fourth event arrives while the request is on its way. *)
Definition interleaved : World := trackEvent browser (click "#d"%string) flushing.

(** The same with events that bring their own ids: "a", "b", "c" are
    queued and submitted, and the event tracked while the request is on
    its way is given the id "a" again. *)
Definition own_ids_flushing : World :=
  flushEvents
    (run [do_trackEvent browser (click_with_id "a" "#a");
          do_trackEvent browser (click_with_id "b" "#b");
          do_trackEvent browser (click_with_id "c" "#c")]%string started).

Definition own_ids_interleaved : World :=
  trackEvent browser (click_with_id "a" "#d")%string own_ids_flushing.

(** A store whose queue limit is 2, with two events queued and their
    submission on its way. *)
Definition full_flushing : World :=
  flushEvents
    (run [do_trackEvent browser (click "#a"); do_trackEvent browser (click "#b")]%string
         (initialize browser (options_limit 2) (initial_world empty_storage cycling))).

(** A store whose queue limit is 3, before any event. *)
Definition limit_three : World :=
  initialize browser (options_limit 3) (initial_world empty_storage cycling).

End Scenario.

(** ** Further definitions: runs of buffer operations *)

Module BufferOps.
Import CircularBuffer.

(** The mutating methods of the class, as a caller invokes them. *)
Inductive Op (T : Type) : Type :=
  | op_push (item : T)
  | op_dequeue
  | op_clear
  | op_drain.

Arguments op_push {T} item.
Arguments op_dequeue {T}.
Arguments op_clear {T}.
Arguments op_drain {T}.

(** The buffer after one method call; a [push] that throws leaves the
    buffer as the throw found it. *)
Definition exec {T : Type} (o : Op T) (b : CircularBuffer.t T) : CircularBuffer.t T :=
  match o with
  | op_push item => fst (push item b)
  | op_dequeue => fst (dequeue b)
  | op_clear => clear b
  | op_drain => fst (drain b)
  end.

(** The buffer after a sequence of calls on [new CircularBuffer(options)]. *)
Definition after {T : Type} (capacity0 : nat) (strategy : OverflowStrategy)
    (ops : list (Op T)) : CircularBuffer.t T :=
  foldl (fun acc o => exec o acc) (new capacity0 strategy) ops.

End BufferOps.

(** ** Further definitions: the shape of a generated identifier *)

Module UuidShape.

Definition is_hex_digit (c : Ascii.ascii) : bool :=
  existsb (Ascii.eqb c) (String.list_ascii_of_string "0123456789abcdef"%string).

Definition is_variant_digit (c : Ascii.ascii) : bool :=
  existsb (Ascii.eqb c) (String.list_ascii_of_string "89ab"%string).

(** [out] follows [template]: a hexadecimal digit for each [x], one of
    8, 9, a, b for each [y], and the template's own character elsewhere
    (for the template of [generateUUID] this is the pattern
    [[0-9a-f]{8}-[0-9a-f]{4}-4[0-9a-f]{3}-[89ab][0-9a-f]{3}-[0-9a-f]{12}]
    that the unit test matches). *)
Fixpoint follows (template out : string) : bool :=
  match template, out with
  | EmptyString, EmptyString => true
  | String t template', String c out' =>
      (if bool_decide (t = "x"%char) then is_hex_digit c
       else if bool_decide (t = "y"%char) then is_variant_digit c
       else Ascii.eqb c t)
      && follows template' out'
  | _, _ => false
  end.

(** The number of [x] and [y] in a template. *)
Fixpoint placeholders (template : string) : nat :=
  match template with
  | EmptyString => 0
  | String t template' =>
      (if bool_decide (t = "x"%char) || bool_decide (t = "y"%char) then 1 else 0)
      + placeholders template'
  end.

Definition UUID_TEMPLATE : string := "xxxxxxxx-xxxx-4xxx-yxxx-xxxxxxxxxxxx"%string.

End UuidShape.

(** ** Further definitions: [extractElementData] of [src/utils/index.ts] *)

Module Dom.








End Dom.

(** ** Further definitions: [throttle] and [debounce] of
    [src/utils/performance.ts] *)

Module Performance.

Section Wrappers.
Context {A R : Type}.

(** The variables that the closure [throttled] keeps, with the timer
    that [setTimeout] holds for it and the record of the invocations of
    [func] (time and arguments), oldest first.  A pending timer knows the
    arguments its callback captured and the time it is due. *)
Record Throttle : Type := {
  t_timeout : option (A * Z);
  t_result : option R;
  t_last : Z;
  t_invoked : list (Z * A)
}.

(** [throttle(func, wait)] before any call. *)
Definition throttle_init : Throttle :=
  {| t_timeout := None; t_result := None; t_last := 0; t_invoked := [] |}.

(** A call [throttled(...args)] at the time [now]: the closure after it
    and the value returned. *)
Definition throttled (func : A -> R) (wait : Z) (now : Z) (args : A) (t : Throttle)
    : Throttle * option R :=
  let remaining := (wait - (now - t_last t))%Z in
  if (remaining <=? 0)%Z || (remaining >? wait)%Z then
    let t' := {| t_timeout := None; t_result := Some (func args); t_last := now;
                 t_invoked := t_invoked t ++ [(now, args)] |} in
    (t', t_result t')
  else
    match t_timeout t with
    | None =>
        ({| t_timeout := Some (args, (now + remaining)%Z); t_result := t_result t;
            t_last := t_last t; t_invoked := t_invoked t |}, t_result t)
    | Some _ => (t, t_result t)
    end.

(** The callback of the pending [setTimeout] runs at the time [now]. *)
Definition throttle_timer (func : A -> R) (now : Z) (t : Throttle) : Throttle :=
  match t_timeout t with
  | Some (args, _) =>
      {| t_timeout := None; t_result := Some (func args); t_last := now;
         t_invoked := t_invoked t ++ [(now, args)] |}
  | None => t
  end.

(** What happens to a wrapper: it is called, or its timer runs. *)
Inductive Tick : Type :=
  | called (now : Z) (args : A)
  | timer (now : Z).

Definition tick_time (e : Tick) : Z :=
  match e with
  | called now _ => now
  | timer now => now
  end.

Definition throttle_tick (func : A -> R) (wait : Z) (e : Tick) (t : Throttle) : Throttle :=
  match e with
  | called now args => fst (throttled func wait now args t)
  | timer now => throttle_timer func now t
  end.

Definition throttle_run (func : A -> R) (wait : Z) (trace : list Tick) (t : Throttle)
    : Throttle :=
  foldl (fun acc e => throttle_tick func wait e acc) t trace.

(** A trace the browser can produce from the time [from] on: the clock
    does not go back, and a timer callback does not run before its timer
    is due. *)
Fixpoint throttle_timely (func : A -> R) (wait : Z) (from : Z) (trace : list Tick)
    (t : Throttle) : Prop :=
  match trace with
  | [] => True
  | e :: rest =>
      (from <= tick_time e)%Z
      /\ match e with
         | timer now =>
             match t_timeout t with
             | Some (_, due) => (due <= now)%Z
             | None => True
             end
         | called _ _ => True
         end
      /\ throttle_timely func wait (tick_time e) rest (throttle_tick func wait e t)
  end.

(** Consecutive times in a list are at least [gap] apart. *)
Fixpoint spaced (gap : Z) (times : list Z) : Prop :=
  match times with
  | t1 :: (t2 :: _) as rest => (t1 + gap <= t2)%Z /\ spaced gap rest
  | _ => True
  end.

(** The closure of [debounce]: the pending timer with the arguments its
    [later] captured, and the record of the invocations of [func]. *)
Record Debounce : Type := {
  d_timeout : option A;
  d_invoked : list A
}.

Definition debounce_init : Debounce := {| d_timeout := None; d_invoked := [] |}.

(** A call [debounced(...args)]. *)
Definition debounced (immediate : bool) (args : A) (d : Debounce) : Debounce :=
  let callNow := immediate && negb (bool_decide (is_Some (d_timeout d))) in
  {| d_timeout := Some args;
     d_invoked := if callNow then d_invoked d ++ [args] else d_invoked d |}.

(** The callback [later] of the pending timer runs. *)
Definition debounce_later (immediate : bool) (d : Debounce) : Debounce :=
  match d_timeout d with
  | Some args =>
      {| d_timeout := None;
         d_invoked := if negb immediate then d_invoked d ++ [args] else d_invoked d |}
  | None => d
  end.

(** A burst: calls in a row with no timer running between them. *)
Definition debounce_burst (immediate : bool) (burst : list A) (d : Debounce) : Debounce :=
  foldl (fun acc args => debounced immediate args acc) d burst.

End Wrappers.

Arguments Throttle : clear implicits.
Arguments Debounce : clear implicits.
Arguments Tick : clear implicits.

End Performance.

(** ** Further definitions: tests and requests of the store *)

Module StoreSpec.
Import Types Utils Store.

(** The auto-flush test of [addEventToQueue] on the queue [q] it has
    just made: [this.config.batchSize && this.events.length >= this.config.batchSize]. *)
Definition reaches_batch (cfg : GameAnalyticsOptions) (q : list GameAnalyticsEvent) : bool :=
  match batchSize cfg with
  | Some n => JS.truthy_number (Some n) && (Z.of_nat (length q) >=? n)%Z
  | None => false
  end.

(** The request that [flushEvents] makes for the queue [q] under the
    configuration [cfg]. *)
Definition request (cfg : GameAnalyticsOptions) (q : list GameAnalyticsEvent) : FetchCall :=
  {| url := apiEndpoint cfg;
     method := "POST"%string;
     header_Content_Type := "application/json"%string;
     header_X_Game_ID := o_gameId cfg;
     header_X_Play_ID := o_playId cfg;
     body_events := q |}.

(** Whether a step is a call of [initialize]. *)
Definition is_initialize (a : Step) : bool :=
  match a with
  | do_initialize _ _ => true
  | _ => false
  end.

(** The steps that leave a revocation of consent in force: everything
    but granting consent again, initialising the store anew, and calling
    [addEventToQueue] directly, past the gate of [trackEvent]. *)
Definition leaves_consent_revoked (a : Step) : bool :=
  match a with
  | do_setConsent consent => negb consent
  | do_initialize _ _ => false
  | do_addEventToQueue _ => false
  | _ => true
  end.

End StoreSpec.

(** ** Further concrete worlds *)

Module MoreScenarios.
Import Types Utils Store.

(** Options as [Scenario.options], with a batch size and a consent
    requirement of one's choice. *)
Definition custom (batch : option Z) (consent : option bool) : GameAnalyticsOptions :=
  {| apiEndpoint := "https://collector.example/events"%string;
     batchSize := batch; flushInterval := None; maxQueueSize := None;
     o_gameId := "game-1"%string; o_playId := "play-1"%string;
     trackClicks := None; trackTouches := None; trackKeyboard := None;
     trackErrors := None; trackNetwork := None; trackPerformance := None;
     sampleRate := None; collectEnvironmentData := None;
     throttleHighFrequencyEvents := None; throttleInterval := None;
     debug := None; verboseLogging := None; visibleTracking := None;
     anonymizeIp := None; respectDoNotTrack := None;
     consentRequired := consent; eventTransformer := None |}.

(** A store with batch size 2 and one event queued. *)
Definition one_of_two : World :=
  trackEvent Scenario.browser (Scenario.click "#a"%string)
    (initialize Scenario.browser (custom (Some 2%Z) (Some false))
       (initial_world Scenario.empty_storage Scenario.cycling)).

(** Three events queued and the network reported offline. *)
Definition offline : World :=
  updateNetworkStatus false "none"%string Scenario.three_tracked.

(** Three events queued and persisted. *)
Definition persisted : World := saveEventsToStorage Scenario.three_tracked.

(** A store that requires consent (the default), with consent granted
    and two events queued and persisted. *)
Definition consented : World :=
  run [do_setConsent true;
       do_trackEvent Scenario.browser (Scenario.click "#a"%string);
       do_trackEvent Scenario.browser (Scenario.click "#b"%string);
       do_saveEventsToStorage]
      (initialize Scenario.browser (custom None None)
         (initial_world Scenario.empty_storage Scenario.cycling)).

(** What happens after the revocation in the scenario of X15. *)
Definition after_revocation : list Step :=
  [do_trackEvent Scenario.browser (Scenario.click "#c"%string);
   idle_slot; timer_ticks; do_flushEvents;
   do_updateNetworkStatus true "wifi"%string;
   fetch_settles Scenario.browser 0 (Rejected "offline"%string);
   page_unloads Scenario.browser].


(** Three calls in a row, the timer 100 ms later, and one more call. *)
Definition throttle_trace : list (Performance.Tick string) :=
  [ Performance.called 1000 "first"; Performance.called 1010 "second";
    Performance.called 1020 "third"; Performance.timer 1100;
    Performance.called 1150 "fourth"; Performance.timer 1200 ]%string%Z.

End MoreScenarios.

(** * Properties *)

(** ** The circular buffer *)

Section CircularBufferFacts.
Import CircularBuffer.
Context {T : Type}.
Implicit Types (b : CircularBuffer.t T) (l : list T) (item : T).

Lemma add_mod_cases (h i c : nat) :
  h < c -> i <= c ->
  (h + i) mod c = if decide (h + i < c) then h + i else h + i - c.
Proof.
  intros Hh Hi. case_decide as Hlt.
  - by apply Nat.mod_small.
  - symmetry. apply (Nat.mod_unique _ _ 1); lia.
Qed.

Lemma add_mod_inj (h i j c : nat) :
  h < c -> i < c -> j < c -> (h + i) mod c = (h + j) mod c -> i = j.
Proof.
  intros Hh Hi Hj. rewrite !add_mod_cases by lia.
  repeat case_decide; lia.
Qed.

Lemma add_mod_shift (h i c : nat) :
  ((h + 1) mod c + i) mod c = (h + S i) mod c.
Proof.
  rewrite Nat.Div0.add_mod_idemp_l. f_equal. lia.
Qed.

Lemma new_holds (c : nat) (strategy : OverflowStrategy) :
  0 < c -> holds (new (T:=T) c strategy) [].
Proof.
  intros Hc. repeat split; simpl; try lia.
  - by rewrite length_replicate.
  - by rewrite Nat.Div0.mod_0_l.
  - intros i item Hi. by rewrite lookup_nil in Hi.
Qed.

Lemma store_at_tail_holds b l item :
  holds b l -> size b < capacity b -> holds (store_at_tail item b) (l ++ [item]).
Proof.
  intros ((Hc & Hlen & Hh & Hs & Ht) & Hsz & Hcells) Hroom.
  repeat split; simpl; try lia.
  - by rewrite length_insert.
  - rewrite Ht, Nat.Div0.add_mod_idemp_l. f_equal. lia.
  - rewrite length_app. simpl. lia.
  - intros i y Hi.
    destruct (decide (i < length l)) as [Hlt | Hge].
    + rewrite lookup_app_l in Hi by done.
      rewrite list_lookup_insert_ne; [by apply Hcells |].
      rewrite Ht. intros Heq. apply add_mod_inj in Heq; lia.
    + apply lookup_lt_Some in Hi as Hbound.
      rewrite length_app in Hbound. simpl in Hbound.
      assert (i = length l) as -> by lia.
      rewrite lookup_app_r, Nat.sub_diag in Hi by lia. simplify_eq/=.
      rewrite <- Hsz, <- Ht. apply list_lookup_insert_eq.
      rewrite Hlen, Ht. by apply Nat.mod_upper_bound, Nat.neq_0_lt_0.
Qed.

Lemma dequeue_holds b l item :
  holds b (item :: l) ->
  snd (dequeue b) = Some item /\ holds (fst (dequeue b)) l
  /\ capacity (fst (dequeue b)) = capacity b
  /\ overflowStrategy (fst (dequeue b)) = overflowStrategy b
  /\ overflowCount (fst (dequeue b)) = overflowCount b.
Proof.
  intros ((Hc & Hlen & Hh & Hs & Ht) & Hsz & Hcells). simpl in Hsz.
  unfold dequeue. destruct (Nat.eqb_spec (size b) 0) as [? | _]; [lia |]. simpl.
  pose proof (Hcells 0 item eq_refl) as H0.
  rewrite Nat.add_0_r, Nat.mod_small in H0 by done.
  split; [by rewrite H0 |]. repeat split; simpl; try lia.
  - by rewrite length_insert.
  - by apply Nat.mod_upper_bound, Nat.neq_0_lt_0.
  - rewrite Ht, Nat.Div0.add_mod_idemp_l. f_equal. lia.
  - intros i y Hi. rewrite add_mod_shift.
    apply lookup_lt_Some in Hi as Hbound.
    rewrite list_lookup_insert_ne; [by apply (Hcells (S i)) |].
    intros Heq. rewrite <- (Nat.add_0_r (head b)) in Heq at 1.
    rewrite <- (Nat.mod_small (head b + 0) (capacity b)) in Heq by lia.
    apply add_mod_inj in Heq; lia.
Qed.

(** One push under [discard_oldest]: the item goes in at the end and,
    if the buffer was full, the oldest item goes out. *)
Lemma push_discard_oldest_holds b l item :
  holds b l -> overflowStrategy b = discard_oldest ->
  snd (push item b) = Returned true
  /\ holds (fst (push item b)) (drop (length l + 1 - capacity b) (l ++ [item]))
  /\ capacity (fst (push item b)) = capacity b
  /\ overflowStrategy (fst (push item b)) = discard_oldest
  /\ overflowCount (fst (push item b)) = overflowCount b.
Proof.
  intros Hb Hstrategy. pose proof Hb as (Hwf & Hsz & _).
  destruct Hwf as (Hc & _ & _ & Hs & _).
  unfold push. destruct (Nat.eqb_spec (size b) (capacity b)) as [Hfull | Hroom].
  - rewrite Hstrategy. destruct l as [| oldest l']; simpl in Hsz; [lia |].
    destruct (dequeue_holds _ _ _ Hb) as (_ & Hb' & Hcap & Hstr & Hcnt).
    split; [done |]. simpl fst.
    replace (length (oldest :: l') + 1 - capacity b) with 1 by (simpl; lia).
    simpl. rewrite drop_0. split_and!; try done; try congruence.
    apply store_at_tail_holds; [done |].
    destruct Hb' as (_ & Hsz' & _). lia.
  - split; [done |]. simpl fst.
    replace (length l + 1 - capacity b) with 0 by lia. rewrite drop_0.
    split_and!; try done. apply store_at_tail_holds; [done | lia].
Qed.

Lemma getItems_loop_holds b l' :
  forall current items,
    0 < capacity b -> current < capacity b ->
    (forall i item, l' !! i = Some item ->
       buffer b !! ((current + i) mod capacity b) = Some (Some item)) ->
    getItems_loop b (length l') current items = items ++ l'.
Proof.
  induction l' as [| item l' IH]; intros current items Hc Hcur Hcells; simpl.
  - by rewrite app_nil_r.
  - pose proof (Hcells 0 item eq_refl) as H0.
    rewrite Nat.add_0_r, Nat.mod_small in H0 by done. rewrite H0. simpl.
    rewrite IH; [by rewrite <- app_assoc | done | |].
    + by apply Nat.mod_upper_bound, Nat.neq_0_lt_0.
    + intros i y Hi. rewrite add_mod_shift. by apply (Hcells (S i)).
Qed.

(** [getItems] returns the abstract contents. *)
Lemma getItems_holds b l : holds b l -> getItems b = l.
Proof.
  intros ((Hc & _ & Hh & _ & _) & Hsz & Hcells). unfold getItems.
  destruct (Nat.eqb_spec (size b) 0) as [Hz | _].
  - destruct l; simpl in Hsz; [done | lia].
  - rewrite Hsz. by rewrite getItems_loop_holds.
Qed.

Lemma drop_overflow_step l item (items : list T) (c : nat) :
  length l <= c ->
  drop (length (drop (length l + 1 - c) (l ++ [item]) ++ items) - c)
       (drop (length l + 1 - c) (l ++ [item]) ++ items)
  = drop (length (l ++ item :: items) - c) (l ++ item :: items).
Proof.
  intros Hl.
  replace (l ++ item :: items) with ((l ++ [item]) ++ items)
    by (by rewrite <- app_assoc).
  assert (length l + 1 - c <= length (l ++ [item])) as Hk
    by (rewrite length_app; simpl; lia).
  rewrite <- (drop_app_le (l ++ [item]) items _ Hk).
  rewrite drop_drop. f_equal.
  rewrite length_drop, !length_app. simpl. lia.
Qed.

(** A run of pushes under [discard_oldest] keeps the last [capacity]
    items of what the buffer held followed by what was pushed, and
    leaves the overflow counter alone. *)
Lemma push_all_discard_oldest_holds (items : list T) :
  forall b l,
    holds b l -> overflowStrategy b = discard_oldest ->
    holds (push_all items b)
          (drop (length (l ++ items) - capacity b) (l ++ items))
    /\ capacity (push_all items b) = capacity b
    /\ overflowCount (push_all items b) = overflowCount b.
Proof.
  induction items as [| item items IH]; intros b l Hb Hstrategy; simpl.
  - pose proof Hb as ((_ & _ & _ & Hs & _) & Hsz & _).
    rewrite app_nil_r. replace (length l - capacity b) with 0 by lia.
    by rewrite drop_0.
  - destruct (push_discard_oldest_holds b l item Hb Hstrategy)
      as (_ & Hb1 & Hcap & Hstr & Hcnt).
    destruct (IH _ _ Hb1 Hstr) as (Hb2 & Hcap2 & Hcnt2).
    unfold push_all in *. simpl.
    rewrite Hcap2, Hcnt2, Hcap, Hcnt. split_and!; try done.
    rewrite Hcap in Hb2. rewrite <- drop_overflow_step; [done |].
    destruct Hb as ((_ & _ & _ & Hs & _) & Hsz & _). lia.
Qed.

(** The standalone buffer of claim C4: created with capacity [c] and
    [discard_oldest], after any run of pushes it holds the last [c]
    items pushed (all of them, when there are at most [c]) in push
    order, and its overflow counter is still 0. *)
Lemma buffer_discard_oldest_keeps_last (c : nat) (items : list T) :
  0 < c ->
  getItems (push_all items (new c discard_oldest)) = drop (length items - c) items
  /\ getOverflowCount (push_all items (new c discard_oldest)) = 0.
Proof.
  intros Hc.
  destruct (push_all_discard_oldest_holds items (new c discard_oldest) []
              (new_holds c discard_oldest Hc) eq_refl) as (Hb & _ & Hcnt).
  split; [by apply getItems_holds | done].
Qed.

(** C9.  A buffer at capacity under the [error] strategy: [push]
    throws the overflow error and the buffer after the call is the
    buffer before it, field for field: contents, size, head, tail and
    overflow counter. *)
Theorem push_error_at_capacity_unchanged b item :
  size b = capacity b -> overflowStrategy b = error ->
  push item b = (b, Thrown "CircularBuffer overflow: buffer is full"%string).
Proof.
  intros Hfull Hstrategy. unfold push.
  rewrite Hfull, Nat.eqb_refl, Hstrategy. reflexivity.
Qed.
End CircularBufferFacts.

(** A buffer of capacity 2 filled with two items. *)
Lemma push_error_at_capacity_unchanged_witness :
  let b := CircularBuffer.push_all ["item1"; "item2"]%string
             (CircularBuffer.new 2 CircularBuffer.error) in
  CircularBuffer.size b = CircularBuffer.capacity b
  /\ CircularBuffer.overflowStrategy b = CircularBuffer.error
  /\ CircularBuffer.push "item3"%string b
     = (b, CircularBuffer.Thrown "CircularBuffer overflow: buffer is full"%string)
  /\ CircularBuffer.getItems (fst (CircularBuffer.push "item3"%string b))
     = ["item1"; "item2"]%string.
Proof.
  intros b.
  assert (CircularBuffer.size b = CircularBuffer.capacity b) as Hfull
    by reflexivity.
  assert (CircularBuffer.overflowStrategy b = CircularBuffer.error) as Hstrategy
    by reflexivity.
  split; [exact Hfull |]. split; [exact Hstrategy |].
  rewrite (push_error_at_capacity_unchanged b "item3"%string Hfull Hstrategy).
  split; reflexivity.
Defined.

(** ** The store *)

Section StoreFacts.
Import Types Utils Store.
Implicit Types (w : World) (s : GameAnalyticsState) (br : Browser)
  (event : PartialEvent) (e : GameAnalyticsEvent).

(** *** [flushEvents] up to the [await] *)

Lemma flushEvents_guarded w :
  pendingFlush (store w) = true \/ events (store w) = []
  \/ isOnline (networkStatus (store w)) = false ->
  flushEvents w = w.
Proof.
  intros Hguard. unfold flushEvents.
  destruct (events (store w)) as [| e q] eqn:Hq; [done |]. simpl.
  destruct (pendingFlush (store w)); [done |].
  destruct (isOnline (networkStatus (store w))); [| done].
  by destruct Hguard as [? | [? | ?]].
Qed.

(** What a call that passes the guards leaves. *)
Lemma flushEvents_started w :
  pendingFlush (store w) = false -> events (store w) <> []
  -> isOnline (networkStatus (store w)) = true ->
  store (flushEvents w) = set_pendingFlush true (store w)
  /\ suspended (flushEvents w) = suspended w ++ [events (store w)]
  /\ (exists call, fetchCalls (flushEvents w) = fetchCalls w ++ [call]
                   /\ body_events call = events (store w))
  /\ localStorage (flushEvents w) = localStorage w
  /\ random (flushEvents w) = random w.
Proof.
  intros Hp Hq Hon. unfold flushEvents.
  destruct (events (store w)) as [| e q] eqn:Hevents; [done |]. simpl.
  rewrite Hp, Hon. simpl. rewrite Hevents. split_and!; try done.
  eexists. split; done.
Qed.

Lemma flushEvents_cases w :
  flushEvents w = w
  \/ (pendingFlush (store w) = false
      /\ store (flushEvents w) = set_pendingFlush true (store w)
      /\ suspended (flushEvents w) = suspended w ++ [events (store w)]
      /\ localStorage (flushEvents w) = localStorage w
      /\ random (flushEvents w) = random w).
Proof.
  destruct (pendingFlush (store w)) eqn:Hp;
    [left; apply flushEvents_guarded; auto |].
  destruct (events (store w)) as [| e q] eqn:Hq;
    [left; apply flushEvents_guarded; auto |].
  destruct (isOnline (networkStatus (store w))) eqn:Hon;
    [| left; apply flushEvents_guarded; auto].
  right. rewrite <- Hq.
  destruct (flushEvents_started w) as (? & ? & _ & ? & ?); try done.
  by rewrite Hq.
Qed.

Lemma flushEvents_idempotent w : flushEvents (flushEvents w) = flushEvents w.
Proof.
  destruct (flushEvents_cases w) as [Hsame | (_ & Hs & _)];
    [by rewrite !Hsame |].
  apply flushEvents_guarded. left. by rewrite Hs.
Qed.

(** *** [addEventToQueue] and [trackEvent] *)

Lemma addEventToQueue_cases e w :
  addEventToQueue e w = runWhenIdle (flushEvents (with_store (store_after_push e) w))
  \/ addEventToQueue e w = runWhenIdle (with_store (store_after_push e) w).
Proof.
  unfold addEventToQueue, store_after_push, queue_after_push, overflows,
    with_store, incr_overflowCount, set_size, set_bufferInfo, set_events.
  cbn -[flushEvents JS.slice Z.of_nat Z.gtb Z.geb JS.truthy_number].
  destruct (maxQueueSize (config (store w))) as [m |];
    [destruct (_ && (_ >? m)%Z) |];
    cbn -[flushEvents JS.slice Z.of_nat Z.gtb Z.geb JS.truthy_number];
    (destruct (batchSize (config (store w))) as [n |];
     [destruct (_ && (_ >=? n)%Z) |]);
    rewrite ?Nat.add_0_r; auto.
Qed.

Lemma trackEvent_cases br event w :
  trackEvent br event w = w
  \/ (exists r, trackEvent br event w = with_random r w)
  \/ (exists r e, trackEvent br event w = addEventToQueue e (with_random r w)).
Proof.
  unfold trackEvent.
  destruct (isTrackingAllowed br (store w)); cbn [negb]; [| by left].
  destruct (sampledOut _ _) as [[] r1]; [right; left; eauto |].
  destruct (generateUUID r1) as [uuid r2].
  right; right. repeat case_match; eauto.
Qed.

Lemma same_settings_refl s : same_settings s s.
Proof. by repeat split. Qed.

Lemma same_settings_trans s1 s2 s3 :
  same_settings s1 s2 -> same_settings s2 s3 -> same_settings s1 s3.
Proof.
  intros (? & ? & ? & ? & ? & ? & ? & ?) (? & ? & ? & ? & ? & ? & ? & ?).
  unfold same_settings. split_and!; congruence.
Qed.

(** [flushEvents], up to the [await], touches the flag and nothing else
    of the state. *)
Lemma flushEvents_frame w :
  same_settings (store w) (store (flushEvents w))
  /\ events (store (flushEvents w)) = events (store w)
  /\ bufferInfo (store (flushEvents w)) = bufferInfo (store w)
  /\ localStorage (flushEvents w) = localStorage w
  /\ random (flushEvents w) = random w
  /\ idleCallbacks (flushEvents w) = idleCallbacks w.
Proof.
  unfold flushEvents. repeat case_match; simpl; split_and!;
    try done; apply same_settings_refl.
Qed.

Lemma addEventToQueue_frame e w :
  same_settings (store w) (store (addEventToQueue e w))
  /\ events (store (addEventToQueue e w))
     = queue_after_push (config (store w)) (events (store w)) e
  /\ size_matches (store (addEventToQueue e w))
  /\ overflowCount (bufferInfo (store (addEventToQueue e w)))
     = overflowCount (bufferInfo (store w))
       + (if overflows (config (store w)) (events (store w)) e then 1 else 0)
  /\ localStorage (addEventToQueue e w) = localStorage w
  /\ random (addEventToQueue e w) = random w.
Proof.
  destruct (addEventToQueue_cases e w) as [-> | ->]; simpl.
  - destruct (flushEvents_frame (with_store (store_after_push e) w))
      as (Hset & Hq & Hbuf & -> & -> & _).
    unfold size_matches. rewrite Hq, Hbuf. simpl.
    split_and!; try done.
  - split_and!; try done.
Qed.

Lemma trackEvent_frame br event w :
  same_settings (store w) (store (trackEvent br event w))
  /\ (events (store (trackEvent br event w)) = events (store w)
      /\ bufferInfo (store (trackEvent br event w)) = bufferInfo (store w)
      \/ exists e,
         events (store (trackEvent br event w))
         = queue_after_push (config (store w)) (events (store w)) e
         /\ size_matches (store (trackEvent br event w)))
  /\ localStorage (trackEvent br event w) = localStorage w.
Proof.
  destruct (trackEvent_cases br event w) as [-> | [(r & ->) | (r & e & ->)]].
  - split_and!; [apply same_settings_refl | by left | done].
  - split_and!; [apply same_settings_refl | by left | done].
  - destruct (addEventToQueue_frame e (with_random r w))
      as (Hset & Hq & Hsz & _ & Hls & _).
    split_and!; [done | right; by exists e | done].
Qed.

(** *** [bufferInfo.size] follows the queue *)

Lemma size_matches_flushEvents w :
  size_matches (store w) -> size_matches (store (flushEvents w)).
Proof.
  destruct (flushEvents_frame w) as (_ & Hq & Hbuf & _).
  unfold size_matches. by rewrite Hq, Hbuf.
Qed.

Lemma size_matches_trackEvent br event w :
  size_matches (store w) -> size_matches (store (trackEvent br event w)).
Proof.
  destruct (trackEvent_frame br event w) as (_ & [[Hq Hbuf] | (e & _ & Hsz)] & _);
    [| done].
  unfold size_matches. by rewrite Hq, Hbuf.
Qed.

Lemma size_matches_saveEventsToStorage w :
  store (saveEventsToStorage w) = store w.
Proof. unfold saveEventsToStorage. by case_match. Qed.

Lemma size_matches_flush_catch br message0 w :
  size_matches (store w) -> size_matches (store (flush_catch br message0 w)).
Proof.
  intros Hsz. unfold flush_catch. case_match; [| done].
  by apply size_matches_trackEvent.
Qed.

Lemma size_matches_resume br i outcome w :
  size_matches (store w) -> size_matches (store (flushEvents_resume br i outcome w)).
Proof.
  intros Hsz. unfold flushEvents_resume.
  destruct (suspended w !! i) as [eventsToSend |]; [| done].
  unfold flush_try.
  destruct outcome as [status | reason]; [destruct (response_ok status) |]; simpl;
    try done;
    apply (size_matches_flush_catch br _ (with_suspended _ w) Hsz).
Qed.

Lemma size_matches_step (a : Step) w :
  size_matches (store w) -> size_matches (store (step a w)).
Proof.
  intros Hsz. destruct a; simpl.
  - unfold initialize. by case_match.
  - unfold setConsent. by destruct consent.
  - done.
  - unfold updateNetworkStatus. case_match; [| done].
    by apply size_matches_flushEvents.
  - by apply size_matches_trackEvent.
  - apply addEventToQueue_frame.
  - by rewrite size_matches_saveEventsToStorage.
  - by apply size_matches_flushEvents.
  - done.
  - done.
  - by apply size_matches_resume.
  - unfold interval_callback. case_match; [| done].
    by apply size_matches_flushEvents.
  - unfold idle_callback. case_match; [done |].
    by rewrite size_matches_saveEventsToStorage.
  - unfold beforeunload_listener. case_match.
    + apply size_matches_flushEvents. by rewrite size_matches_saveEventsToStorage.
    + by rewrite size_matches_saveEventsToStorage.
Qed.

Lemma run_snoc (history : list Step) (a : Step) w :
  run (history ++ [a]) w = step a (run history w).
Proof. unfold run. by rewrite foldl_app. Qed.

(** C10.  [bufferInfo.size] equals the length of the [events] array
    after every action of the store: each step (an action called from
    outside, or a callback of the store that the browser runs) keeps
    the equality, and it holds in the initial state, hence after every
    history of the store. *)
Theorem bufferInfo_size_is_queue_length
    (a : Step) w (history : list Step) (ls : LocalStorage) (r : RandomSource) :
  (size_matches (store w) -> size_matches (store (step a w)))
  /\ size_matches (store (run history (initial_world ls r))).
Proof.
  split; [apply size_matches_step |].
  induction history as [| b history IH] using rev_ind; [done |].
  rewrite run_snoc. by apply size_matches_step.
Qed.

(** *** One flush in flight *)

(** While [pendingFlush] is set, no step but the settling of the
    [fetch] clears it, issues a request or parks another call. *)
Lemma busy_flushEvents w :
  pendingFlush (store w) = true -> flushEvents w = w.
Proof. intros Hp. apply flushEvents_guarded. by left. Qed.

Lemma busy_addEventToQueue e w :
  pendingFlush (store w) = true ->
  pendingFlush (store (addEventToQueue e w)) = true
  /\ fetchCalls (addEventToQueue e w) = fetchCalls w
  /\ suspended (addEventToQueue e w) = suspended w.
Proof.
  intros Hp.
  destruct (addEventToQueue_cases e w) as [-> | ->];
    rewrite ?busy_flushEvents; done.
Qed.

Lemma busy_trackEvent br event w :
  pendingFlush (store w) = true ->
  pendingFlush (store (trackEvent br event w)) = true
  /\ fetchCalls (trackEvent br event w) = fetchCalls w
  /\ suspended (trackEvent br event w) = suspended w.
Proof.
  intros Hp.
  destruct (trackEvent_cases br event w) as [-> | [(r & ->) | (r & e & ->)]];
    try done.
  by apply (busy_addEventToQueue e (with_random r w)).
Qed.

Lemma busy_step (a : Step) w :
  is_settle a = false -> pendingFlush (store w) = true ->
  pendingFlush (store (step a w)) = true
  /\ fetchCalls (step a w) = fetchCalls w
  /\ suspended (step a w) = suspended w.
Proof.
  intros Ha Hp. destruct a; simpl in *; try done.
  - unfold initialize. by case_match.
  - unfold setConsent. by destruct consent.
  - unfold updateNetworkStatus. case_match; [| done].
    by rewrite busy_flushEvents.
  - by apply busy_trackEvent.
  - by apply busy_addEventToQueue.
  - unfold saveEventsToStorage. by case_match.
  - by rewrite busy_flushEvents.
  - unfold interval_callback. case_match; [| done]. by rewrite busy_flushEvents.
  - unfold idle_callback. case_match; [done |].
    unfold saveEventsToStorage. by case_match.
  - unfold beforeunload_listener, saveEventsToStorage.
    repeat case_match; rewrite ?busy_flushEvents; done.
Qed.

Lemma busy_run (history : list Step) w :
  forallb (fun a => negb (is_settle a)) history = true ->
  pendingFlush (store w) = true ->
  pendingFlush (store (run history w)) = true
  /\ fetchCalls (run history w) = fetchCalls w
  /\ suspended (run history w) = suspended w.
Proof.
  induction history as [| a history IH] using rev_ind; intros Hall Hp; [done |].
  rewrite forallb_app in Hall. simpl in Hall.
  apply andb_prop in Hall as [Hall Ha]. rewrite andb_true_r in Ha.
  apply negb_true_iff in Ha.
  destruct (IH Hall Hp) as (Hp' & Hcalls & Hsusp).
  rewrite run_snoc.
  destruct (busy_step a (run history w) Ha Hp') as (? & -> & ->). done.
Qed.

Lemma in_flight_flushEvents w :
  one_flush_in_flight w -> one_flush_in_flight (flushEvents w).
Proof.
  intros [Hlen Hiff].
  destruct (flushEvents_cases w) as [-> | (Hp & Hs & Hsusp & _)]; [done |].
  assert (suspended w = []) as Hnone.
  { destruct (suspended w); [done |]. exfalso.
    assert (pendingFlush (store w) = true) by (by apply Hiff). congruence. }
  unfold one_flush_in_flight. rewrite Hs, Hsusp, Hnone. simpl.
  split; [lia | done].
Qed.

(** A change of the world that leaves the flag and the parked calls
    alone keeps the invariant. *)
Lemma in_flight_same w w' :
  pendingFlush (store w') = pendingFlush (store w) -> suspended w' = suspended w ->
  one_flush_in_flight w -> one_flush_in_flight w'.
Proof. unfold one_flush_in_flight. by intros -> ->. Qed.

Lemma in_flight_addEventToQueue e w :
  one_flush_in_flight w -> one_flush_in_flight (addEventToQueue e w).
Proof.
  intros Hinv.
  assert (one_flush_in_flight (with_store (store_after_push e) w)) as Hpushed
    by (by apply (in_flight_same w)).
  destruct (addEventToQueue_cases e w) as [-> | ->].
  - apply in_flight_flushEvents in Hpushed. revert Hpushed.
    by apply in_flight_same.
  - revert Hpushed. by apply in_flight_same.
Qed.

Lemma in_flight_trackEvent br event w :
  one_flush_in_flight w -> one_flush_in_flight (trackEvent br event w).
Proof.
  intros Hinv.
  destruct (trackEvent_cases br event w) as [-> | [(r & ->) | (r & e & ->)]];
    try done.
  apply in_flight_addEventToQueue. revert Hinv. by apply in_flight_same.
Qed.

(** *** [flushEvents] after the [await] *)

Lemma resume_success br i status w eventsToSend :
  suspended w !! i = Some eventsToSend -> response_ok status = true ->
  let w' := flushEvents_resume br i (Fulfilled status) w in
  events (store w') = remove_sent eventsToSend (events (store w))
  /\ size_matches (store w')
  /\ lastFlushTime (store w') = Some (now br)
  /\ pendingFlush (store w') = false
  /\ failedSubmissions (store w') = failedSubmissions (store w)
  /\ localStorage w' = removeItem STORAGE_KEY_EVENTS (localStorage w)
  /\ suspended w' = delete i (suspended w)
  /\ fetchCalls w' = fetchCalls w.
Proof.
  intros Hi Hok. unfold flushEvents_resume, flush_try.
  rewrite Hi, Hok. simpl. by split_and!.
Qed.

Lemma resume_failure br i outcome w eventsToSend message0 :
  suspended w !! i = Some eventsToSend -> thrown_message outcome = Some message0 ->
  flushEvents_resume br i outcome w
  = flush_finally (flush_catch br message0 (with_suspended (delete i (suspended w)) w)).
Proof.
  intros Hi Hthrown. unfold flushEvents_resume, flush_try. rewrite Hi.
  destruct outcome as [status | reason]; simpl in Hthrown.
  - destruct (response_ok status); [done |]. by simplify_eq/=.
  - by simplify_eq/=.
Qed.

(** The [finally] block runs on every path. *)
Lemma resume_clears_pendingFlush br i outcome w :
  is_Some (suspended w !! i) ->
  pendingFlush (store (flushEvents_resume br i outcome w)) = false.
Proof.
  intros [eventsToSend Hi]. unfold flushEvents_resume. rewrite Hi.
  by destruct (flush_try _ _ _ _) as [w1 [message0 |]].
Qed.

Lemma busy_flush_catch br message0 w :
  pendingFlush (store w) = true ->
  fetchCalls (flush_catch br message0 w) = fetchCalls w
  /\ suspended (flush_catch br message0 w) = suspended w.
Proof.
  intros Hp. unfold flush_catch. case_match; [| done].
  by apply (busy_trackEvent br _ (with_store _ w)).
Qed.

Lemma in_flight_resume br i outcome w :
  one_flush_in_flight w -> one_flush_in_flight (flushEvents_resume br i outcome w).
Proof.
  intros [Hlen Hiff].
  destruct (suspended w !! i) as [eventsToSend |] eqn:Hi;
    [| unfold flushEvents_resume; by rewrite Hi].
  assert (pendingFlush (store w) = true) as Hp
    by (apply Hiff; intros Hnil; by rewrite Hnil in Hi).
  assert (delete i (suspended w) = []) as Hrest.
  { destruct (suspended w) as [| x [| y l]]; simpl in *; try lia; [done |].
    by destruct i. }
  assert (suspended (flushEvents_resume br i outcome w) = []) as Hnone.
  { destruct (thrown_message outcome) as [message0 |] eqn:Hthrown.
    - rewrite (resume_failure _ _ _ _ _ _ Hi Hthrown). simpl.
      destruct (busy_flush_catch br message0
                  (with_suspended (delete i (suspended w)) w) Hp) as [_ ->].
      done.
    - destruct outcome as [status | reason]; simpl in Hthrown; [| done].
      destruct (response_ok status) eqn:Hok; [| done].
      destruct (resume_success br i status w eventsToSend Hi Hok)
        as (_ & _ & _ & _ & _ & _ & -> & _).
      done. }
  unfold one_flush_in_flight.
  rewrite Hnone, resume_clears_pendingFlush by (by rewrite Hi).
  split; [simpl; lia | done].
Qed.

Lemma in_flight_step (a : Step) w :
  one_flush_in_flight w -> one_flush_in_flight (step a w).
Proof.
  intros Hinv. destruct a; simpl.
  - revert Hinv. apply in_flight_same; unfold initialize; by case_match.
  - revert Hinv. apply in_flight_same; unfold setConsent; by destruct consent.
  - done.
  - unfold updateNetworkStatus. case_match;
      [apply in_flight_flushEvents |]; revert Hinv; by apply in_flight_same.
  - by apply in_flight_trackEvent.
  - by apply in_flight_addEventToQueue.
  - revert Hinv. apply in_flight_same; unfold saveEventsToStorage; by case_match.
  - by apply in_flight_flushEvents.
  - done.
  - done.
  - by apply in_flight_resume.
  - unfold interval_callback. case_match; [| done]. by apply in_flight_flushEvents.
  - unfold idle_callback. case_match; [done |].
    revert Hinv. apply in_flight_same; unfold saveEventsToStorage; by case_match.
  - unfold beforeunload_listener.
    assert (one_flush_in_flight (saveEventsToStorage w)) as Hsaved.
    { revert Hinv. apply in_flight_same; unfold saveEventsToStorage; by case_match. }
    case_match; [by apply in_flight_flushEvents | done].
Qed.

Lemma in_flight_run (history : list Step) (ls : LocalStorage) (r : RandomSource) :
  one_flush_in_flight (run history (initial_world ls r)).
Proof.
  induction history as [| a history IH] using rev_ind.
  - split; simpl; [lia | done].
  - rewrite run_snoc. by apply in_flight_step.
Qed.

(** C2.  Mutual exclusion of flushes.
    - A call of [flushEvents] made while [pendingFlush] is set, while
      the queue is empty or while the network is offline returns
      without a request and leaves the whole world as it was.
    - Triggering a flush twice in a row issues one request, not two.
    - While [pendingFlush] is set, no run of steps other than the
      settling of the [fetch] issues a request or clears the flag.
    - When the [fetch] of a parked call settles, with any outcome,
      [pendingFlush] is false afterwards.
    - After every history of the store at most one call is parked at
      its [fetch], and [pendingFlush] is set exactly while one is: the
      flag cannot stay set with nothing left to clear it. *)
Theorem flush_mutual_exclusion
    w br (i : nat) (outcome : FetchOutcome) (triggers history : list Step)
    (ls : LocalStorage) (r : RandomSource) :
  (pendingFlush (store w) = true \/ events (store w) = []
     \/ isOnline (networkStatus (store w)) = false ->
   flushEvents w = w)
  /\ (pendingFlush (store w) = false -> events (store w) <> [] ->
      isOnline (networkStatus (store w)) = true ->
      exists call,
        fetchCalls (flushEvents (flushEvents w)) = fetchCalls w ++ [call]
        /\ body_events call = events (store w))
  /\ (forallb (fun a => negb (is_settle a)) triggers = true ->
      pendingFlush (store w) = true ->
      fetchCalls (run triggers w) = fetchCalls w
      /\ pendingFlush (store (run triggers w)) = true)
  /\ (is_Some (suspended w !! i) ->
      pendingFlush (store (flushEvents_resume br i outcome w)) = false)
  /\ one_flush_in_flight (run history (initial_world ls r)).
Proof.
  split_and!.
  - apply flushEvents_guarded.
  - intros Hp Hq Hon. rewrite flushEvents_idempotent.
    by destruct (flushEvents_started w Hp Hq Hon) as (_ & _ & Hcall & _).
  - intros Hall Hp. by destruct (busy_run triggers w Hall Hp) as (? & ? & _).
  - apply resume_clears_pendingFlush.
  - apply in_flight_run.
Qed.

(** *** Reconciliation after a successful submission *)

Lemma elem_of_remove_sent (eventsToSend q : list GameAnalyticsEvent) e :
  e ∈ remove_sent eventsToSend q <-> e ∈ q /\ id e ∉ (id <$> eventsToSend).
Proof.
  unfold remove_sent. rewrite !list_elem_of_In, filter_In, <- !list_elem_of_In.
  apply and_iff_compat_l.
  rewrite negb_true_iff, <- not_true_iff_false, existsb_exists.
  split.
  - intros Hnone Hin. apply list_elem_of_fmap in Hin as (se & Hid & Hse).
    apply Hnone. exists se. split; [by apply list_elem_of_In |].
    unfold JS.strict_eq. by apply bool_decide_eq_true.
  - intros Hnotin (se & Hse & Heq). apply Hnotin.
    unfold JS.strict_eq in Heq. apply bool_decide_eq_true in Heq.
    rewrite <- Heq. apply list_elem_of_fmap. exists se.
    split; [done | by apply list_elem_of_In].
Qed.

(** C1, as the code has it.  A flush that begins parks the queue of
    that moment as its snapshot.  When its submission succeeds, the queue
    becomes the queue of the moment of the response without the events
    whose [id] is the [id] of a snapshot event, in the same order: an
    event is in the queue afterwards exactly when it was in it and its
    [id] is none of the snapshot's.  So every event pushed after the
    snapshot whose [id] differs from all the snapshot's ids remains;
    [lastFlushTime] is the time of the response, [bufferInfo.size]
    follows and the persisted copy is removed. *)
Theorem flush_success_removes_snapshot_ids
    br (i : nat) (status : Z) w w0 (eventsToSend : list GameAnalyticsEvent) :
  suspended w !! i = Some eventsToSend -> response_ok status = true ->
  let w' := flushEvents_resume br i (Fulfilled status) w in
  (pendingFlush (store w0) = false -> events (store w0) <> [] ->
   isOnline (networkStatus (store w0)) = true ->
   suspended (flushEvents w0) = suspended w0 ++ [events (store w0)])
  /\ events (store w') = remove_sent eventsToSend (events (store w))
  /\ (forall e, e ∈ events (store w')
                <-> e ∈ events (store w) /\ id e ∉ (id <$> eventsToSend))
  /\ lastFlushTime (store w') = Some (now br)
  /\ size (bufferInfo (store w')) = length (events (store w'))
  /\ pendingFlush (store w') = false
  /\ getItem STORAGE_KEY_EVENTS (localStorage w') = None.
Proof.
  intros Hi Hok w'.
  destruct (resume_success br i status w eventsToSend Hi Hok)
    as (Hq & Hsz & Htime & Hp & _ & Hls & _).
  fold w' in Hq, Hsz, Htime, Hp, Hls. split_and!; try done.
  - intros Hp0 Hq0 Hon0.
    by destruct (flushEvents_started w0 Hp0 Hq0 Hon0) as (_ & ? & _).
  - intros e. rewrite Hq. apply elem_of_remove_sent.
  - rewrite Hls. unfold getItem, removeItem. simpl. apply lookup_delete_eq.
Qed.

(** *** A failed submission *)

Lemma queue_after_push_room (cfg : GameAnalyticsOptions) (q : list GameAnalyticsEvent) e :
  overflows cfg q e = false -> queue_after_push cfg q e = q ++ [e].
Proof.
  unfold overflows, queue_after_push.
  destruct (maxQueueSize cfg) as [m |]; [| done]. by intros ->.
Qed.

Lemma fullEvent_type br (cfg : GameAnalyticsOptions) (uuid : string) event :
  type (fullEvent br cfg uuid event) = default "custom"%string (p_type event).
Proof.
  unfold fullEvent. case_match; simpl; by destruct (p_type event).
Qed.

(** C3, as the code has it.  When the submission of a flush fails (the
    [fetch] is rejected, or the response is not [ok]):
    - [failedSubmissions] grows by exactly one and [pendingFlush] is
      false afterwards; the call completes (the model of [flushEvents]
      is total: the [catch] block takes every error of the [try] block);
    - with [trackErrors] on, the partial event
      [{type: 'error', target: 'analytics', error: ...}] goes through
      [trackEvent] itself, gate and sampling included; with it off
      nothing is tracked;
    - the failure path removes nothing on its own: the queue afterwards
      is the queue before, or what [addEventToQueue] makes of it for the
      one tracked event, i.e. the event appended and, if that exceeds
      [maxQueueSize], the oldest events cut off;
    - so the queue is untouched where the error event is not tracked or
      the gate rejects it, and is only extended where the limit leaves
      room; no new request goes out. *)
Theorem flush_failure_keeps_queue_up_to_limit
    br (i : nat) (outcome : FetchOutcome) w
    (eventsToSend : list GameAnalyticsEvent) (message0 : string) :
  suspended w !! i = Some eventsToSend ->
  thrown_message outcome = Some message0 ->
  let w' := flushEvents_resume br i outcome w in
  let counted :=
    with_store (fun s => set_failedSubmissions (failedSubmissions s + 1) s)
               (with_suspended (delete i (suspended w)) w) in
  failedSubmissions (store w') = failedSubmissions (store w) + 1
  /\ pendingFlush (store w') = false
  /\ w' = flush_finally
            (if JS.truthy_bool (trackErrors (config (store w)))
             then trackEvent br (submission_error_event message0) counted
             else counted)
  /\ (forall uuid,
        type (fullEvent br (config (store w)) uuid (submission_error_event message0))
        = "error"%string)
  /\ (events (store w') = events (store w)
      \/ exists e, events (store w')
                   = queue_after_push (config (store w)) (events (store w)) e)
  /\ (JS.truthy_bool (trackErrors (config (store w))) = false
      \/ isTrackingAllowed br (store w) = false ->
      events (store w') = events (store w))
  /\ ((forall e, overflows (config (store w)) (events (store w)) e = false) ->
      events (store w) `prefix_of` events (store w'))
  /\ (pendingFlush (store w) = true -> fetchCalls w' = fetchCalls w).
Proof.
  intros Hi Hthrown w' counted.
  assert (w' = flush_finally
                 (if JS.truthy_bool (trackErrors (config (store w)))
                  then trackEvent br (submission_error_event message0) counted
                  else counted)) as Hw'
    by (unfold w'; by rewrite (resume_failure _ _ _ _ _ _ Hi Hthrown)).
  pose proof (trackEvent_frame br (submission_error_event message0) counted)
    as (Hset & Hq & _).
  destruct Hset as (_ & _ & _ & _ & _ & Hfailed & _).
  split_and!.
  - rewrite Hw'. case_match; simpl; [by rewrite Hfailed | done].
  - by rewrite Hw'.
  - done.
  - intros uuid. by rewrite fullEvent_type.
  - rewrite Hw'. case_match; simpl; [| by left].
    destruct Hq as [[Hsame _] | (e & Hpushed & _)]; [by left | right; by exists e].
  - intros Hoff. rewrite Hw'.
    destruct (JS.truthy_bool (trackErrors (config (store w)))) eqn:Hon; [| done].
    destruct Hoff as [? | Hgate]; [done |]. simpl.
    unfold trackEvent.
    replace (isTrackingAllowed br (store counted)) with false by done. done.
  - intros Hroom. rewrite Hw'. case_match; simpl; [| done].
    destruct Hq as [[-> _] | (e & -> & _)]; [done |]. simpl.
    rewrite queue_after_push_room by apply Hroom. by apply prefix_app_r.
  - intros Hp. rewrite Hw'. case_match; simpl; [| done].
    by destruct (busy_trackEvent br (submission_error_event message0) counted Hp)
      as (_ & -> & _).
Qed.

(** *** The queue limit *)

Lemma slice_last {A : Type} (c : nat) (l : list A) :
  0 < c -> JS.slice (- Z.of_nat c) l = drop (length l - c) l.
Proof.
  intros Hc. unfold JS.slice.
  destruct (Z.ltb_spec (- Z.of_nat c) 0) as [_ | ?]; [| lia].
  f_equal. lia.
Qed.

Lemma addEventToQueue_limit (c : nat) e w :
  0 < c -> maxQueueSize (config (store w)) = Some (Z.of_nat c) ->
  events (store (addEventToQueue e w))
  = drop (length (events (store w)) + 1 - c) (events (store w) ++ [e])
  /\ overflowCount (bufferInfo (store (addEventToQueue e w)))
     = overflowCount (bufferInfo (store w))
       + (if decide (c < length (events (store w)) + 1) then 1 else 0)
  /\ config (store (addEventToQueue e w)) = config (store w).
Proof.
  intros Hc Hmax.
  destruct (addEventToQueue_frame e w) as (Hset & -> & _ & -> & _).
  destruct Hset as (Hcfg & _). split_and!; [| | done].
  - unfold queue_after_push. rewrite Hmax. simpl.
    replace (negb (Z.of_nat c =? 0)%Z) with true
      by (symmetry; apply negb_true_iff, Z.eqb_neq; lia).
    rewrite length_app. simpl.
    destruct (Z.gtb_spec (Z.of_nat (length (events (store w)) + 1)) (Z.of_nat c)).
    + rewrite slice_last by done. by rewrite length_app.
    + replace (length (events (store w)) + 1 - c) with 0 by lia. by rewrite drop_0.
  - unfold overflows. rewrite Hmax. simpl.
    replace (negb (Z.of_nat c =? 0)%Z) with true
      by (symmetry; apply negb_true_iff, Z.eqb_neq; lia).
    rewrite length_app. simpl.
    destruct (Z.gtb_spec (Z.of_nat (length (events (store w)) + 1)) (Z.of_nat c));
      case_decide; done || lia.
Qed.

(** A run of [addEventToQueue] under the limit [c] keeps the last [c]
    events of the queue followed by what was pushed, and counts one
    overflow for every push that cuts. *)
Lemma addEventsToQueue_limit (c : nat) (items : list GameAnalyticsEvent) :
  forall w,
    0 < c -> maxQueueSize (config (store w)) = Some (Z.of_nat c) ->
    length (events (store w)) <= c ->
    events (store (addEventsToQueue items w))
    = drop (length (events (store w) ++ items) - c) (events (store w) ++ items)
    /\ overflowCount (bufferInfo (store (addEventsToQueue items w)))
       = overflowCount (bufferInfo (store w))
         + (length (events (store w) ++ items) - c).
Proof.
  induction items as [| e items IH]; intros w Hc Hmax Hlen; simpl.
  - rewrite app_nil_r. replace (length (events (store w)) - c) with 0 by lia.
    by rewrite drop_0, Nat.add_0_r.
  - destruct (addEventToQueue_limit c e w Hc Hmax) as (Hq & Hcount & Hcfg).
    assert (length (events (store (addEventToQueue e w))) <= c) as Hlen'.
    { rewrite Hq, length_drop, length_app. simpl. lia. }
    destruct (IH (addEventToQueue e w) Hc) as (Hq' & Hcount');
      [by rewrite Hcfg | done |].
    unfold addEventsToQueue in *. rewrite Hq', Hcount', Hcount.
    rewrite Hq. split.
    + by apply drop_overflow_step.
    + rewrite !length_app, length_drop, !length_app. simpl.
      case_decide; lia.
Qed.

(** C4, as the code has it.  Under the discard-oldest policy with
    capacity [c > 0], after any run of pushes the snapshot is the last
    [c] items pushed, in push order (all of them, while there are at most
    [c]), for the standalone buffer and for the store's queue cut to
    [maxQueueSize = c] alike.  The overflow counter of the standalone
    buffer is not touched by these evictions and is still 0; the store
    counts every push that cuts the queue in [bufferInfo.overflowCount],
    so that after [n] pushes into an empty queue it has grown by
    [n - c]. *)
Theorem discard_oldest_keeps_last_items
    {T : Type} (c : nat) (items : list T)
    w (pushed : list GameAnalyticsEvent) :
  0 < c ->
  (CircularBuffer.getItems
     (CircularBuffer.push_all items (CircularBuffer.new c CircularBuffer.discard_oldest))
   = drop (length items - c) items
   /\ CircularBuffer.getOverflowCount
        (CircularBuffer.push_all items (CircularBuffer.new c CircularBuffer.discard_oldest))
      = 0
   /\ (c < length items -> length (drop (length items - c) items) = c))
  /\ (maxQueueSize (config (store w)) = Some (Z.of_nat c) ->
      events (store w) = [] ->
      events (store (addEventsToQueue pushed w)) = drop (length pushed - c) pushed
      /\ overflowCount (bufferInfo (store (addEventsToQueue pushed w)))
         = overflowCount (bufferInfo (store w)) + (length pushed - c)).
Proof.
  intros Hc. split.
  - destruct (buffer_discard_oldest_keeps_last c items Hc) as [Hitems Hcount].
    split_and!; [done | done |]. intros Hn. rewrite length_drop. lia.
  - intros Hmax Hempty.
    destruct (addEventsToQueue_limit c pushed w Hc Hmax) as [Hq Hcount];
      [rewrite Hempty; simpl; lia |].
    rewrite Hempty in Hq, Hcount. simpl in Hq, Hcount. done.
Qed.

(** *** Sampling and the gate *)

Lemma shouldSampleEvent_high (rate : Q) (r : RandomSource) :
  (1 <= rate)%Q -> shouldSampleEvent rate r = (true, r).
Proof.
  intros Hrate. unfold shouldSampleEvent.
  by rewrite (proj2 (Qle_bool_iff 1 rate) Hrate).
Qed.

Lemma shouldSampleEvent_low (rate : Q) (r : RandomSource) :
  (rate <= 0)%Q -> shouldSampleEvent rate r = (false, r).
Proof.
  intros Hrate. unfold shouldSampleEvent.
  destruct (Qle_bool 1 rate) eqn:Hhigh.
  - apply Qle_bool_iff in Hhigh. exfalso.
    apply (Qlt_irrefl 0). apply Qlt_le_trans with 1%Q; [reflexivity |].
    by apply Qle_trans with rate.
  - by rewrite (proj2 (Qle_bool_iff rate 0) Hrate).
Qed.

Lemma shouldSampleEvent_between (rate : Q) (r : RandomSource) :
  (0 < rate)%Q -> (rate < 1)%Q ->
  shouldSampleEvent rate r
  = (Qle_bool (sequence r (drawn r)) rate, snd (Math_random r)).
Proof.
  intros Hlow Hhigh. unfold shouldSampleEvent.
  destruct (Qle_bool 1 rate) eqn:H1.
  - apply Qle_bool_iff in H1. exfalso. by apply (Qlt_not_le rate 1).
  - destruct (Qle_bool rate 0) eqn:H0; [| done].
    apply Qle_bool_iff in H0. exfalso. by apply (Qlt_not_le 0 rate).
Qed.

(** C5, as the code has it.  A rate of 1 or more always admits and a
    rate of 0 or less always rejects, both without a draw; for a rate
    strictly between, one number is drawn and the event is admitted
    exactly when the draw is less than or equal to the rate.  The test
    of [trackEvent] drops the event exactly when a rate is configured
    and [shouldSampleEvent] rejects. *)
Theorem sampling_decision (rate : Q) (r : RandomSource) (cfg : GameAnalyticsOptions) :
  ((1 <= rate)%Q -> shouldSampleEvent rate r = (true, r))
  /\ ((rate <= 0)%Q -> shouldSampleEvent rate r = (false, r))
  /\ ((0 < rate)%Q -> (rate < 1)%Q ->
      (fst (shouldSampleEvent rate r) = true <-> (sequence r (drawn r) <= rate)%Q)
      /\ drawn (snd (shouldSampleEvent rate r)) = S (drawn r))
  /\ (sampleRate cfg = Some rate ->
      sampledOut cfg r
      = (negb (fst (shouldSampleEvent rate r)), snd (shouldSampleEvent rate r)))
  /\ (sampleRate cfg = None -> sampledOut cfg r = (false, r)).
Proof.
  split_and!.
  - apply shouldSampleEvent_high.
  - apply shouldSampleEvent_low.
  - intros Hlow Hhigh. rewrite shouldSampleEvent_between by done. simpl.
    split; [apply Qle_bool_iff | done].
  - intros Hcfg. unfold sampledOut, number_lt. rewrite Hcfg.
    destruct (Qle_bool 1 rate) eqn:H1; simpl.
    + apply Qle_bool_iff in H1. by rewrite shouldSampleEvent_high.
    + by destruct (shouldSampleEvent rate r).
  - intros Hcfg. unfold sampledOut. by rewrite Hcfg.
Qed.

Lemma isTrackingAllowed_false br s :
  isTrackingAllowed br s = false
  <-> isEnabled s = false
      \/ (JS.truthy_bool (consentRequired (config s)) = true /\ hasConsent s = false)
      \/ (JS.truthy_bool (respectDoNotTrack (config s)) = true
          /\ (navigator_doNotTrack br = Some "1"%string
              \/ window_doNotTrack br = Some "1"%string
              \/ navigator_msDoNotTrack br = Some "1"%string)).
Proof.
  unfold isTrackingAllowed, JS.strict_eq.
  destruct (isEnabled s), (JS.truthy_bool (consentRequired (config s))),
    (hasConsent s), (JS.truthy_bool (respectDoNotTrack (config s)));
    repeat case_bool_decide; simpl; intuition congruence.
Qed.

(** C6.  [trackEvent] tests the gate first: where [isTrackingAllowed]
    is false (the store is disabled, consent is required and missing, or
    Do-Not-Track is respected and signalled) the call returns the world
    it was given: nothing is queued, no state changes and no number is
    drawn.  So two runs that differ only in the generator end in worlds
    that differ only in that generator, whatever it would have drawn. *)
Theorem gate_rejects_whatever_the_draw br event w (r1 r2 : RandomSource) :
  isTrackingAllowed br (store w) = false ->
  (isEnabled (store w) = false
   \/ (JS.truthy_bool (consentRequired (config (store w))) = true
       /\ hasConsent (store w) = false)
   \/ (JS.truthy_bool (respectDoNotTrack (config (store w))) = true
       /\ (navigator_doNotTrack br = Some "1"%string
           \/ window_doNotTrack br = Some "1"%string
           \/ navigator_msDoNotTrack br = Some "1"%string)))
  /\ trackEvent br event w = w
  /\ trackEvent br event (with_random r1 w) = with_random r1 w
  /\ trackEvent br event (with_random r2 w)
     = with_random r2 (trackEvent br event (with_random r1 w))
  /\ store (trackEvent br event (with_random r1 w))
     = store (trackEvent br event (with_random r2 w))
  /\ drawn (random (trackEvent br event (with_random r1 w))) = drawn r1.
Proof.
  intros Hgate.
  assert (forall w0, store w0 = store w -> trackEvent br event w0 = w0) as Hsame.
  { intros w0 Hstore. unfold trackEvent. by rewrite Hstore, Hgate. }
  split; [by apply isTrackingAllowed_false |].
  rewrite !Hsame by done. by split_and!.
Qed.

(** *** Enrichment *)

Lemma fullEvent_id br (cfg : GameAnalyticsOptions) (uuid : string) event :
  id (fullEvent br cfg uuid event) = Some (default uuid (p_id event)).
Proof.
  unfold fullEvent. case_match; simpl; by destruct (p_id event).
Qed.

Lemma fullEvent_gameId br (cfg : GameAnalyticsOptions) (uuid : string) event :
  gameId (fullEvent br cfg uuid event) = default (o_gameId cfg) (p_gameId event).
Proof.
  unfold fullEvent. case_match; simpl; by destruct (p_gameId event).
Qed.

Lemma fullEvent_playId br (cfg : GameAnalyticsOptions) (uuid : string) event :
  playId (fullEvent br cfg uuid event) = default (o_playId cfg) (p_playId event).
Proof.
  unfold fullEvent. case_match; simpl; by destruct (p_playId event).
Qed.

(** C7, as the code has it.  An event that passes the gate and the
    sampling reaches [addEventToQueue] as the enriched event (after the
    transformer, if one is configured).  In the enriched event [id] is
    the partial's own [id] where it has one, and otherwise the value that
    [generateUUID()] makes at that moment from the generator; [type] is
    the partial's or "custom"; [gameId] and [playId] are the partial's or
    the configured ones. *)
Theorem enrichment_fills_identity br event w :
  isTrackingAllowed br (store w) = true ->
  fst (sampledOut (config (store w)) (random w)) = false ->
  let cfg := config (store w) in
  let r1 := snd (sampledOut cfg (random w)) in
  let uuid := fst (generateUUID r1) in
  let full := fullEvent br cfg uuid event in
  trackEvent br event w
  = addEventToQueue (transformed cfg full) (with_random (snd (generateUUID r1)) w)
  /\ id full = Some (default uuid (p_id event))
  /\ type full = default "custom"%string (p_type event)
  /\ gameId full = default (o_gameId cfg) (p_gameId event)
  /\ playId full = default (o_playId cfg) (p_playId event).
Proof.
  intros Hgate Hsample cfg r1 uuid full. split_and!.
  - unfold trackEvent. rewrite Hgate. cbn [negb].
    subst full uuid r1 cfg.
    destruct (sampledOut (config (store w)) (random w)) as [out r1].
    simpl in Hsample. subst out. cbn [snd].
    destruct (generateUUID r1) as [uuid r2]. cbn [fst snd].
    unfold transformed. by repeat case_match.
  - apply fullEvent_id.
  - apply fullEvent_type.
  - apply fullEvent_gameId.
  - apply fullEvent_playId.
Qed.

(** *** Consent *)

(** C8.  [setConsent(false)] empties the queue at once ([eventCount]
    is 0 and [bufferInfo.size] follows), records the refusal and removes
    both storage entries; an idle callback that was still waiting to
    persist the queue finds it empty and writes nothing. *)
Theorem revoking_consent_erases w :
  let w' := setConsent false w in
  eventCount (store w') = 0
  /\ size (bufferInfo (store w')) = 0
  /\ hasConsent (store w') = false
  /\ getItem STORAGE_KEY_EVENTS (localStorage w') = None
  /\ getItem STORAGE_KEY_CONFIG (localStorage w') = None
  /\ getItem STORAGE_KEY_EVENTS (localStorage (idle_callback w')) = None.
Proof.
  simpl. unfold getItem, removeItem. simpl. split_and!; try done.
  - rewrite lookup_delete_ne by done. apply lookup_delete_eq.
  - apply lookup_delete_eq.
  - unfold idle_callback. simpl. case_match; simpl.
    + rewrite lookup_delete_ne by done. apply lookup_delete_eq.
    + rewrite lookup_delete_ne by done. apply lookup_delete_eq.
Qed.
End StoreFacts.

(** The scenario of C1: three events tracked, a flush begun (its snapshot
    is the three), a fourth event tracked before the response, then the
    response 200: the queue is the fourth event alone and
    [lastFlushTime] is set. *)
Lemma flush_success_removes_snapshot_ids_witness :
  let w := Scenario.interleaved in
  let w' := Store.flushEvents_resume Scenario.browser 0 (Store.Fulfilled 200) w in
  Store.suspended Scenario.flushing = [Types.events (Store.store Scenario.three_tracked)]
  /\ Types.events (Store.store w') = drop 3 (Types.events (Store.store w))
  /\ (Types.target <$> Types.events (Store.store w')) = [Some "#d"%string]
  /\ Types.lastFlushTime (Store.store w') = Some (Store.now Scenario.browser)
  /\ Utils.getItem Store.STORAGE_KEY_EVENTS (Store.localStorage w') = None.
Proof.
  intros w w'.
  destruct (flush_success_removes_snapshot_ids Scenario.browser 0 200 w
              Scenario.three_tracked
              (Types.events (Store.store Scenario.three_tracked)))
    as (Hsnap & Hq & _ & Htime & _ & _ & Hls);
    [vm_compute; reflexivity | vm_compute; reflexivity |].
  split; [| split; [| split; [| split]]].
  - apply Hsnap; vm_compute; [reflexivity | discriminate | reflexivity].
  - fold w' in Hq. rewrite Hq. vm_compute. reflexivity.
  - fold w' in Hq. rewrite Hq. vm_compute. reflexivity.
  - exact Htime.
  - exact Hls.
Defined.

(** C1 as stated fails where ids repeat: events with the ids "a", "b",
    "c" are submitted, an event that brings the id "a" again is tracked
    while the request is on its way, and the successful response removes
    it with the rest although it was pushed after the snapshot. *)
Lemma flush_success_drops_later_event_with_snapshot_id :
  let w := Scenario.own_ids_interleaved in
  let w' := Store.flushEvents_resume Scenario.browser 0 (Store.Fulfilled 200) w in
  exists snapshot later,
    Store.suspended w = [snapshot]
    /\ Types.events (Store.store w) = snapshot ++ [later]
    /\ (later ∉ snapshot)
    /\ (later ∉ Types.events (Store.store w')).
Proof.
  intros w w'.
  exists (take 3 (Types.events (Store.store w))).
  exists (Store.fullEvent Scenario.browser (Types.config (Store.store w))
            EmptyString (Scenario.click_with_id "a" "#d")%string).
  split; [vm_compute; reflexivity |].
  split; [vm_compute; reflexivity |].
  split.
  - vm_compute. intros Hin.
    repeat (apply elem_of_cons in Hin as [Hin | Hin]; [discriminate Hin |]).
    by apply elem_of_nil in Hin.
  - replace (Types.events (Store.store w')) with (@nil Types.GameAnalyticsEvent)
      by (vm_compute; reflexivity).
    apply not_elem_of_nil.
Qed.

(** A failed submission with room in the queue: the response 503 to
    the flush of three events leaves the three in place, followed by the
    error event; one failure is counted and the flag is cleared. *)
Lemma flush_failure_keeps_queue_up_to_limit_witness :
  let w := Scenario.flushing in
  let w' := Store.flushEvents_resume Scenario.browser 0 (Store.Fulfilled 503) w in
  Types.failedSubmissions (Store.store w') = 1
  /\ Types.pendingFlush (Store.store w') = false
  /\ Types.events (Store.store w) `prefix_of` Types.events (Store.store w')
  /\ Store.fetchCalls w' = Store.fetchCalls w.
Proof.
  intros w w'.
  destruct (flush_failure_keeps_queue_up_to_limit Scenario.browser 0
              (Store.Fulfilled 503) w (Types.events (Store.store Scenario.three_tracked))
              "API responded with status 503"%string)
    as (Hcount & Hflag & _ & _ & _ & _ & Hprefix & Hcalls);
    [vm_compute; reflexivity | vm_compute; reflexivity |].
  split; [exact Hcount |]. split; [exact Hflag |]. split.
  - apply Hprefix. intros e. unfold Store.overflows.
    replace (Types.maxQueueSize (Types.config (Store.store w))) with (Some 1000%Z)
      by (vm_compute; reflexivity).
    replace (Types.events (Store.store w))
      with (Types.events (Store.store Scenario.three_tracked))
      by (vm_compute; reflexivity).
    rewrite length_app.
    replace (length (Types.events (Store.store Scenario.three_tracked))) with 3
      by (vm_compute; reflexivity).
    reflexivity.
  - apply Hcalls. vm_compute. reflexivity.
Defined.

(** C3 as stated fails at a full queue: with [maxQueueSize] 2 and two
    events queued, the response 500 to their flush makes [trackEvent]
    queue the error event, and [addEventToQueue] cuts the oldest event
    off: the first event is gone from the queue after the failure. *)
Lemma flush_failure_at_limit_drops_oldest :
  let w := Scenario.full_flushing in
  let w' := Store.flushEvents_resume Scenario.browser 0 (Store.Fulfilled 500) w in
  exists oldest second added,
    Types.events (Store.store w) = [oldest; second]
    /\ Types.events (Store.store w') = [second; added]
    /\ Types.type added = "error"%string
    /\ (oldest ∉ Types.events (Store.store w')).
Proof.
  intros w w'.
  destruct (Types.events (Store.store w)) as [| oldest [| second rest]] eqn:Hq;
    [vm_compute in Hq; discriminate Hq | vm_compute in Hq; discriminate Hq |].
  destruct (Types.events (Store.store w')) as [| first' [| added rest']] eqn:Hq';
    [vm_compute in Hq'; discriminate Hq' | vm_compute in Hq'; discriminate Hq' |].
  exists oldest, second, added.
  vm_compute in Hq, Hq'. simplify_eq.
  split; [reflexivity |]. split; [reflexivity |]. split; [reflexivity |].
  intros Hin.
  repeat (apply elem_of_cons in Hin as [Hin | Hin]; [discriminate Hin |]).
  by apply elem_of_nil in Hin.
Qed.

(** Capacity 3, items A, B, C, D: the buffer and the store's queue both
    hold B, C, D; the buffer's counter is 0 and the store's is 1. *)
Lemma discard_oldest_keeps_last_items_witness :
  let b := CircularBuffer.push_all ["A"; "B"; "C"; "D"]%string
             (CircularBuffer.new 3 CircularBuffer.discard_oldest) in
  let pushed := Scenario.item <$> ["A"; "B"; "C"; "D"]%string in
  let w' := Store.addEventsToQueue pushed Scenario.limit_three in
  (CircularBuffer.getItems b = ["B"; "C"; "D"]%string
   /\ CircularBuffer.getOverflowCount b = 0)
  /\ (Types.events (Store.store w') = Scenario.item <$> ["B"; "C"; "D"]%string
      /\ Types.overflowCount (Types.bufferInfo (Store.store w')) = 1).
Proof.
  intros b pushed w'.
  destruct (discard_oldest_keeps_last_items 3 ["A"; "B"; "C"; "D"]%string
              Scenario.limit_three pushed) as [(Hitems & Hcount & _) Hstore]; [lia |].
  split; [split; [exact Hitems | exact Hcount] |].
  apply Hstore; vm_compute; reflexivity.
Defined.

(** C4 as stated fails for the store's queue: with [maxQueueSize] 3, the
    push of the fourth event cuts the oldest one off and
    [bufferInfo.overflowCount] is 1 afterwards, not 0. *)
Lemma store_overflowCount_counts_discard_oldest :
  let pushed := Scenario.item <$> ["A"; "B"; "C"; "D"]%string in
  let w' := Store.addEventsToQueue pushed Scenario.limit_three in
  Types.events (Store.store w') = Scenario.item <$> ["B"; "C"; "D"]%string
  /\ Types.overflowCount (Types.bufferInfo (Store.store Scenario.limit_three)) = 0
  /\ Types.overflowCount (Types.bufferInfo (Store.store w')) <> 0.
Proof.
  vm_compute. split; [reflexivity |]. split; [reflexivity | discriminate].
Qed.

(** Rate 1/2 with the generator about to return 0 (admitted), rate 1
    and rate 0 (no draw), and the test of [trackEvent] under the default
    rate 1. *)
Lemma sampling_decision_witness :
  Utils.shouldSampleEvent 1 Scenario.halves = (true, Scenario.halves)
  /\ Utils.shouldSampleEvent 0 Scenario.halves = (false, Scenario.halves)
  /\ ((fst (Utils.shouldSampleEvent (1 # 2) Scenario.cycling) = true
       <-> (Utils.sequence Scenario.cycling 0 <= 1 # 2)%Q)
      /\ Utils.drawn (snd (Utils.shouldSampleEvent (1 # 2) Scenario.cycling)) = 1)
  /\ Store.sampledOut Store.DEFAULT_OPTIONS Scenario.halves
     = (negb (fst (Utils.shouldSampleEvent 1 Scenario.halves)),
        snd (Utils.shouldSampleEvent 1 Scenario.halves)).
Proof.
  destruct (sampling_decision 1 Scenario.halves Store.DEFAULT_OPTIONS)
    as (Hhigh & _ & _ & Htest & _).
  destruct (sampling_decision 0 Scenario.halves Store.DEFAULT_OPTIONS)
    as (_ & Hlow & _).
  destruct (sampling_decision (1 # 2) Scenario.cycling Store.DEFAULT_OPTIONS)
    as (_ & _ & Hbetween & _).
  split; [apply Hhigh; apply Qle_refl |].
  split; [apply Hlow; apply Qle_refl |].
  split; [apply Hbetween; reflexivity |].
  apply Htest. reflexivity.
Defined.

(** C5 as stated fails where the draw equals the rate: with rate 1/2
    and a draw of exactly 1/2 the event is admitted, although the draw is
    not strictly less than the rate. *)
Lemma sampling_admits_draw_equal_to_rate :
  let rate := (1 # 2)%Q in
  let draw := Utils.sequence Scenario.halves (Utils.drawn Scenario.halves) in
  (0 < rate)%Q /\ (rate < 1)%Q /\ (0 <= draw)%Q /\ (draw < 1)%Q
  /\ fst (Utils.shouldSampleEvent rate Scenario.halves) = true
  /\ ~ (draw < rate)%Q.
Proof.
  simpl. split; [reflexivity |]. split; [reflexivity |].
  split; [discriminate |]. split; [reflexivity |].
  split; [reflexivity |]. apply Qlt_irrefl.
Qed.

(** A browser that signals Do-Not-Track to a store that respects it:
    the event is rejected and the generators are never asked. *)
Lemma gate_rejects_whatever_the_draw_witness :
  let w := Scenario.started in
  let event := Scenario.click "#a"%string in
  Store.trackEvent Scenario.browser_dnt event w = w
  /\ Store.store (Store.trackEvent Scenario.browser_dnt event
                    (Store.with_random Scenario.cycling w))
     = Store.store (Store.trackEvent Scenario.browser_dnt event
                      (Store.with_random Scenario.halves w))
  /\ Utils.drawn
       (Store.random (Store.trackEvent Scenario.browser_dnt event
                        (Store.with_random Scenario.halves w))) = 0.
Proof.
  intros w event.
  destruct (gate_rejects_whatever_the_draw Scenario.browser_dnt event w
              Scenario.cycling Scenario.halves)
    as (_ & Hsame & _ & _ & Hstore & _); [vm_compute; reflexivity |].
  destruct (gate_rejects_whatever_the_draw Scenario.browser_dnt event w
              Scenario.halves Scenario.cycling)
    as (_ & _ & _ & _ & _ & Hdrawn); [vm_compute; reflexivity |].
  split; [exact Hsame |]. split; [exact Hstore | exact Hdrawn].
Defined.

(** An event without an [id] of its own: the enriched event carries the
    identifier that [generateUUID()] makes from the generator, the
    partial's type and the configured game and play ids. *)
Lemma enrichment_fills_identity_witness :
  let w := Scenario.started in
  let event := Scenario.click "#a"%string in
  let cfg := Types.config (Store.store w) in
  let r1 := snd (Store.sampledOut cfg (Store.random w)) in
  let uuid := fst (Utils.generateUUID r1) in
  let full := Store.fullEvent Scenario.browser cfg uuid event in
  Types.events (Store.store (Store.trackEvent Scenario.browser event w)) = [full]
  /\ Types.id full = Some "01234567-89ab-4cde-b012-3456789abcde"%string
  /\ Types.type full = "click"%string
  /\ Types.gameId full = "game-1"%string
  /\ Types.playId full = "play-1"%string.
Proof.
  intros w event cfg r1 uuid full.
  destruct (enrichment_fills_identity Scenario.browser event w)
    as (Htrack & Hid & Htype & Hgame & Hplay);
    [vm_compute; reflexivity | vm_compute; reflexivity |].
  split; [rewrite Htrack; vm_compute; reflexivity |].
  split; [etrans; [exact Hid | vm_compute; reflexivity] |].
  split; [etrans; [exact Htype | vm_compute; reflexivity] |].
  split; [etrans; [exact Hgame | vm_compute; reflexivity] |].
  etrans; [exact Hplay | vm_compute; reflexivity].
Defined.

(** C7 as stated fails for a partial event that brings an [id]: the
    spread [...event] comes last in the object literal, so the queued
    event carries the partial's "mine" and not the identifier generated
    at enrichment time. *)
Lemma enrichment_keeps_the_id_of_the_partial :
  let w := Scenario.started in
  let event := Scenario.click_with_id "mine" "#a"%string in
  let generated := fst (Utils.generateUUID (Store.random w)) in
  Store.isTrackingAllowed Scenario.browser (Store.store w) = true
  /\ Types.p_id event = Some "mine"%string
  /\ (Types.id <$> Types.events (Store.store (Store.trackEvent Scenario.browser event w)))
     = [Some "mine"%string]
  /\ generated <> "mine"%string.
Proof.
  vm_compute. split; [reflexivity |]. split; [reflexivity |].
  split; [reflexivity | discriminate].
Qed.

(** The invariant across the steps of the reconciliation scenario. *)
Lemma bufferInfo_size_is_queue_length_witness :
  let w := Scenario.interleaved in
  let a := Store.fetch_settles Scenario.browser 0 (Store.Fulfilled 200) in
  Store.size_matches (Store.store (Store.step a w))
  /\ Types.size (Types.bufferInfo (Store.store (Store.step a w))) = 1.
Proof.
  intros w a.
  destruct (bufferInfo_size_is_queue_length a w [] Scenario.empty_storage
              Scenario.cycling) as [Hstep _].
  split; [apply Hstep; vm_compute; reflexivity | vm_compute; reflexivity].
Defined.

Lemma flush_mutual_exclusion_witness :
  let triggers :=
    [Store.do_flushEvents; Store.timer_ticks;
     Store.do_trackEvent Scenario.browser (Scenario.click "#d"%string);
     Store.do_updateNetworkStatus true "wifi"%string;
     Store.page_unloads Scenario.browser; Store.do_flushEvents] in
  Store.flushEvents Scenario.flushing = Scenario.flushing
  /\ (exists call,
        Store.fetchCalls (Store.flushEvents (Store.flushEvents Scenario.three_tracked))
        = Store.fetchCalls Scenario.three_tracked ++ [call]
        /\ Store.body_events call = Types.events (Store.store Scenario.three_tracked))
  /\ (Store.fetchCalls (Store.run triggers Scenario.flushing)
      = Store.fetchCalls Scenario.flushing
      /\ Types.pendingFlush (Store.store (Store.run triggers Scenario.flushing)) = true)
  /\ Types.pendingFlush
       (Store.store (Store.flushEvents_resume Scenario.browser 0
                       (Store.Fulfilled 503) Scenario.flushing)) = false.
Proof.
  intros triggers.
  destruct (flush_mutual_exclusion Scenario.flushing Scenario.browser 0
              (Store.Fulfilled 503) triggers [] Scenario.empty_storage Scenario.cycling)
    as (Hnoop & _ & Hbusy & Hfinally & _).
  destruct (flush_mutual_exclusion Scenario.three_tracked Scenario.browser 0
              (Store.Fulfilled 503) [] [] Scenario.empty_storage Scenario.cycling)
    as (_ & Hone & _).
  split; [| split; [| split]].
  - apply Hnoop. left. vm_compute. reflexivity.
  - apply Hone; vm_compute; [reflexivity | discriminate | reflexivity].
  - apply Hbusy; vm_compute; reflexivity.
  - apply Hfinally. vm_compute. eexists. reflexivity.
Defined.

(** * Further properties *)

(** ** The circular buffer after any sequence of calls *)

Section BufferOpsFacts.
Import CircularBuffer BufferOps.
Context {T : Type}.
Implicit Types (b : CircularBuffer.t T) (l : list T) (item : T).

Lemma clear_holds b l :
  holds b l ->
  holds (clear b) [] /\ capacity (clear b) = capacity b
  /\ overflowStrategy (clear b) = overflowStrategy b
  /\ overflowCount (clear b) = overflowCount b.
Proof.
  intros ((Hc & Hlen & _) & _). split_and!; try done.
  unfold holds, well_formed. simpl. rewrite length_replicate, Nat.Div0.mod_0_l.
  split_and!; try done; lia.
Qed.

Lemma dequeue_any_holds b l :
  holds b l ->
  snd (dequeue b) = l !! 0 /\ holds (fst (dequeue b)) (drop 1 l)
  /\ capacity (fst (dequeue b)) = capacity b
  /\ overflowStrategy (fst (dequeue b)) = overflowStrategy b
  /\ overflowCount (fst (dequeue b)) = overflowCount b.
Proof.
  intros Hb. destruct l as [| oldest l].
  - pose proof Hb as (_ & Hsz & _). simpl in Hsz.
    unfold dequeue. rewrite Hsz. simpl. by split_and!.
  - destruct (dequeue_holds b l oldest Hb) as (? & ? & ? & ? & ?).
    simpl. rewrite drop_0. by split_and!.
Qed.

(** What one [push] does to the contents, by the room left and the
    strategy. *)
Lemma push_any_holds b l item :
  holds b l ->
  let full := bool_decide (length l = capacity b) in
  holds (fst (push item b))
    (if full then
       match overflowStrategy b with
       | discard_oldest => drop 1 l ++ [item]
       | _ => l
       end
     else l ++ [item])
  /\ snd (push item b)
     = (if full then
          match overflowStrategy b with
          | discard_oldest => Returned true
          | discard_newest => Returned false
          | error => Thrown "CircularBuffer overflow: buffer is full"%string
          end
        else Returned true)
  /\ overflowCount (fst (push item b))
     = overflowCount b
       + (if full then
            match overflowStrategy b with discard_newest => 1 | _ => 0 end
          else 0)
  /\ capacity (fst (push item b)) = capacity b
  /\ overflowStrategy (fst (push item b)) = overflowStrategy b.
Proof.
  intros Hb full. pose proof Hb as ((Hc & Hlen & Hh & Hs & Ht) & Hsz & Hcells).
  subst full. case_bool_decide as Hfull.
  - destruct (overflowStrategy b) eqn:Hstrategy.
    + destruct (push_discard_oldest_holds b l item Hb Hstrategy)
        as (Hret & Hb' & Hcap & Hstr & Hcnt).
      replace (length l + 1 - capacity b) with 1 in Hb' by lia.
      destruct l as [| oldest l]; [simpl in *; lia |].
      simpl in Hb'. rewrite drop_0 in Hb'. simpl. rewrite drop_0.
      split_and!; try done. by rewrite Hcnt, Nat.add_0_r.
    + unfold push. rewrite Hsz, Hfull, Nat.eqb_refl, Hstrategy. simpl.
      split_and!; try done.
      unfold holds, well_formed. simpl.
      split_and!; try done; try lia. by rewrite Ht, Hsz, Hfull.
    + unfold push. rewrite Hsz, Hfull, Nat.eqb_refl, Hstrategy. simpl.
      split_and!; by rewrite ?Nat.add_0_r.
  - unfold push. destruct (Nat.eqb_spec (size b) (capacity b)) as [? | _]; [lia |].
    simpl. split_and!; rewrite ?Nat.add_0_r; try done.
    apply store_at_tail_holds; [done | lia].
Qed.

Lemma exec_holds (o : Op T) b l :
  holds b l ->
  exists l', holds (exec o b) l' /\ capacity (exec o b) = capacity b
             /\ overflowStrategy (exec o b) = overflowStrategy b.
Proof.
  intros Hb. destruct o as [item | | |]; simpl.
  - destruct (push_any_holds b l item Hb) as (Hb' & _ & _ & Hcap & Hstr). eauto.
  - destruct (dequeue_any_holds b l Hb) as (_ & Hb' & Hcap & Hstr & _). eauto.
  - destruct (clear_holds b l Hb) as (Hb' & Hcap & Hstr & _). eauto.
  - destruct (clear_holds b l Hb) as (Hb' & Hcap & Hstr & _). eauto.
Qed.

(** Whatever the calls made on a buffer of positive capacity, it
    represents some list of items. *)
Lemma after_holds (c : nat) (strategy : OverflowStrategy) (ops : list (Op T)) :
  0 < c ->
  exists l, holds (after c strategy ops) l
            /\ capacity (after c strategy ops) = c
            /\ overflowStrategy (after c strategy ops) = strategy.
Proof.
  intros Hc. induction ops as [| o ops IH] using rev_ind.
  - exists []. split; [by apply new_holds | done].
  - destruct IH as (l & Hb & Hcap & Hstr).
    unfold after in *. rewrite foldl_app. simpl.
    destruct (exec_holds o _ l Hb) as (l' & Hb' & Hcap' & Hstr').
    exists l'. split_and!; [done | congruence | congruence].
Qed.

(** X1.  First in, first out.  On a buffer reached by any calls,
    [dequeue] returns the oldest item that [getItems] lists and leaves
    the rest in the same order; on an empty buffer it returns [null] and
    leaves the buffer exactly as it was.  The overflow counter is not
    touched. *)
Theorem buffer_dequeue_is_fifo (c : nat) (strategy : OverflowStrategy) (ops : list (Op T)) :
  0 < c ->
  let b := after c strategy ops in
  snd (dequeue b) = getItems b !! 0
  /\ getItems (fst (dequeue b)) = drop 1 (getItems b)
  /\ getOverflowCount (fst (dequeue b)) = getOverflowCount b
  /\ (getItems b = [] -> dequeue b = (b, None)).
Proof.
  intros Hc b. destruct (after_holds c strategy ops Hc) as (l & Hb & _).
  fold b in Hb. rewrite (getItems_holds b l Hb).
  destruct (dequeue_any_holds b l Hb) as (Hret & Hb' & _ & _ & Hcnt).
  rewrite (getItems_holds _ _ Hb'). split_and!; try done.
  intros ->. destruct Hb as (_ & Hsz & _). unfold dequeue. by rewrite Hsz.
Qed.

(** X2.  A push into a buffer that is not full, whatever the strategy
    and the calls before: it returns [true], the item is the newest of
    [getItems], the items before keep their order and the overflow
    counter is not touched. *)
Theorem buffer_push_with_room_appends
    (c : nat) (strategy : OverflowStrategy) (ops : list (Op T)) item :
  0 < c ->
  let b := after c strategy ops in
  isFull b = false ->
  push item b = (fst (push item b), Returned true)
  /\ getItems (fst (push item b)) = getItems b ++ [item]
  /\ getSize (fst (push item b)) = S (getSize b)
  /\ getOverflowCount (fst (push item b)) = getOverflowCount b.
Proof.
  intros Hc b Hroom. destruct (after_holds c strategy ops Hc) as (l & Hb & _).
  fold b in Hb. pose proof Hb as (_ & Hsz & _).
  destruct (push_any_holds b l item Hb) as (Hb' & Hret & Hcnt & _).
  unfold isFull in Hroom. apply Nat.eqb_neq in Hroom.
  rewrite bool_decide_eq_false_2 in Hb', Hret, Hcnt by lia.
  rewrite (getItems_holds _ _ Hb'), (getItems_holds b l Hb).
  split_and!; try done.
  - rewrite <- Hret. by destruct (push item b).
  - destruct Hb' as (_ & Hsz' & _). unfold getSize.
    rewrite Hsz', Hsz, length_app. simpl. lia.
  - unfold getOverflowCount. by rewrite Hcnt, Nat.add_0_r.
Qed.

(** X3.  Discard-newest at capacity: the push returns [false], the new
    item is dropped, [getItems] and the size are what they were and the
    overflow counter grows by exactly one. *)
Theorem buffer_discard_newest_when_full (c : nat) (ops : list (Op T)) item :
  0 < c ->
  let b := after c discard_newest ops in
  isFull b = true ->
  snd (push item b) = Returned false
  /\ getItems (fst (push item b)) = getItems b
  /\ getSize (fst (push item b)) = getSize b
  /\ getOverflowCount (fst (push item b)) = getOverflowCount b + 1.
Proof.
  intros Hc b Hfull.
  destruct (after_holds c discard_newest ops Hc) as (l & Hb & _ & Hstr).
  fold b in Hb, Hstr. pose proof Hb as (_ & Hsz & _).
  destruct (push_any_holds b l item Hb) as (Hb' & Hret & Hcnt & _).
  unfold isFull in Hfull. apply Nat.eqb_eq in Hfull.
  rewrite bool_decide_eq_true_2, Hstr in Hb', Hret, Hcnt by lia.
  rewrite (getItems_holds _ _ Hb'), (getItems_holds b l Hb).
  split_and!; try done.
  destruct Hb' as (_ & Hsz' & _). unfold getSize. by rewrite Hsz', Hsz.
Qed.

(** X4.  Discard-oldest at capacity, after any calls (also when head and
    tail have wrapped around): the push returns [true], the oldest item
    leaves, the others keep their order and the new item is the newest;
    the size stays at the capacity and the overflow counter is not
    touched. *)
Theorem buffer_discard_oldest_when_full (c : nat) (ops : list (Op T)) item :
  0 < c ->
  let b := after c discard_oldest ops in
  isFull b = true ->
  snd (push item b) = Returned true
  /\ getItems (fst (push item b)) = drop 1 (getItems b) ++ [item]
  /\ getSize (fst (push item b)) = c
  /\ getOverflowCount (fst (push item b)) = getOverflowCount b.
Proof.
  intros Hc b Hfull.
  destruct (after_holds c discard_oldest ops Hc) as (l & Hb & Hcap & Hstr).
  fold b in Hb, Hstr, Hcap. pose proof Hb as (_ & Hsz & _).
  destruct (push_any_holds b l item Hb) as (Hb' & Hret & Hcnt & _).
  unfold isFull in Hfull. apply Nat.eqb_eq in Hfull.
  rewrite bool_decide_eq_true_2, Hstr in Hb', Hret, Hcnt by lia.
  rewrite (getItems_holds _ _ Hb'), (getItems_holds b l Hb).
  split_and!; try done.
  - destruct Hb' as (_ & Hsz' & _). unfold getSize.
    rewrite Hsz', length_app, length_drop. simpl. lia.
  - unfold getOverflowCount. by rewrite Hcnt, Nat.add_0_r.
Qed.

(** X5.  The bookkeeping of the buffer after any calls: [getSize] is
    the number of items [getItems] returns and never exceeds the
    capacity, [isEmpty] holds exactly when there is no item, [isFull]
    exactly when there are [capacity] of them, and the capacity is the
    one the buffer was created with. *)
Theorem buffer_size_bookkeeping (c : nat) (strategy : OverflowStrategy) (ops : list (Op T)) :
  0 < c ->
  let b := after c strategy ops in
  getSize b = length (getItems b)
  /\ getSize b <= c
  /\ getCapacity b = c
  /\ (isEmpty b = true <-> getItems b = [])
  /\ (isFull b = true <-> length (getItems b) = c).
Proof.
  intros Hc b. destruct (after_holds c strategy ops Hc) as (l & Hb & Hcap & _).
  fold b in Hb, Hcap. rewrite (getItems_holds b l Hb).
  destruct Hb as ((_ & _ & _ & Hs & _) & Hsz & _).
  unfold getSize, getCapacity, isEmpty, isFull. rewrite Hsz, Hcap in *.
  split_and!; try done.
  - rewrite Nat.eqb_eq. by destruct l.
  - by rewrite Nat.eqb_eq.
Qed.

Lemma push_all_room_holds (items : list T) :
  forall b l,
    holds b l -> length l + length items <= capacity b ->
    holds (push_all items b) (l ++ items)
    /\ overflowCount (push_all items b) = overflowCount b.
Proof.
  induction items as [| item items IH]; intros b l Hb Hroom; simpl.
  - by rewrite app_nil_r.
  - simpl in Hroom.
    destruct (push_any_holds b l item Hb) as (Hb' & _ & Hcnt & Hcap & _).
    rewrite bool_decide_eq_false_2 in Hb', Hcnt by lia.
    destruct (IH _ _ Hb') as (Hb'' & Hcnt'').
    { rewrite Hcap, length_app. simpl. lia. }
    unfold push_all in *. simpl. rewrite <- app_assoc in Hb''.
    split; [done |]. by rewrite Hcnt'', Hcnt, Nat.add_0_r.
Qed.

(** X6.  [drain] returns what [getItems] would and leaves an empty
    buffer with the overflow counter as it was ([clear] does not reset
    it); pushing the drained items back in order brings [getItems] back
    to what it was before the drain, under every strategy. *)
Theorem buffer_drain_round_trip (c : nat) (strategy : OverflowStrategy) (ops : list (Op T)) :
  0 < c ->
  let b := after c strategy ops in
  snd (drain b) = getItems b
  /\ getItems (fst (drain b)) = []
  /\ isEmpty (fst (drain b)) = true
  /\ getOverflowCount (fst (drain b)) = getOverflowCount b
  /\ getItems (push_all (snd (drain b)) (fst (drain b))) = getItems b.
Proof.
  intros Hc b. destruct (after_holds c strategy ops Hc) as (l & Hb & Hcap & _).
  fold b in Hb, Hcap.
  destruct (clear_holds b l Hb) as (Hb' & Hcap' & _ & Hcnt).
  simpl. rewrite (getItems_holds b l Hb), (getItems_holds _ _ Hb').
  split_and!; try done.
  destruct (push_all_room_holds l (clear b) [] Hb') as (Hb'' & _).
  - simpl. destruct Hb as ((_ & _ & _ & Hs & _) & Hsz & _). lia.
  - by apply getItems_holds.
Qed.
End BufferOpsFacts.

(** ** The identifiers of [generateUUID] *)

Section UuidFacts.
Import Utils UuidShape.

Lemma to_int32_of_draw (u : Q) :
  (0 <= u)%Q -> (u < 1)%Q -> (0 <= JS.to_int32 (u * 16) < 16)%Z.
Proof.
  destruct u as [n d]. unfold Qle, Qlt, JS.to_int32. simpl. intros Hlow Hhigh.
  rewrite Pos.mul_1_r. split.
  - apply Z.quot_pos; lia.
  - apply Z.quot_lt_upper_bound; lia.
Qed.

Lemma toString16_is_hex (n : Z) :
  (0 <= n < 16)%Z -> is_hex_digit (toString16 n) = true.
Proof.
  intros Hn. unfold toString16.
  assert (Z.to_nat n < 16) as Hk by lia. revert Hk. generalize (Z.to_nat n) as k.
  intros k Hk. do 16 (destruct k as [| k]; [reflexivity |]). lia.
Qed.

Lemma toString16_is_variant (n : Z) :
  (0 <= n < 16)%Z -> is_variant_digit (toString16 (Z.lor (Z.land n 3) 8)) = true.
Proof.
  intros Hn. rewrite <- (Z2Nat.id n) by lia.
  assert (Z.to_nat n < 16) as Hk by lia. revert Hk. generalize (Z.to_nat n) as k.
  intros k Hk. do 16 (destruct k as [| k]; [reflexivity |]). lia.
Qed.

Lemma replace_xy_follows (template : string) :
  forall r : RandomSource,
    (forall n, (0 <= sequence r n)%Q /\ (sequence r n < 1)%Q) ->
    follows template (fst (replace_xy template r)) = true
    /\ drawn (snd (replace_xy template r)) = drawn r + placeholders template
    /\ sequence (snd (replace_xy template r)) = sequence r.
Proof.
  induction template as [| c template IH]; intros r Hr; simpl.
  - by rewrite Nat.add_0_r.
  - destruct (Hr (drawn r)) as [Hlow Hhigh].
    pose proof (to_int32_of_draw _ Hlow Hhigh) as Hn.
    destruct (bool_decide (c = "x"%char)) eqn:Hx; simpl.
    + destruct (IH {| sequence := sequence r; drawn := S (drawn r) |} Hr)
        as (Hf & Hd & Hs).
      destruct (replace_xy template _) as [out r2]. simpl in *.
      rewrite Hf, toString16_is_hex by done. split_and!; [done | lia | done].
    + destruct (bool_decide (c = "y"%char)) eqn:Hy; simpl.
      * destruct (IH {| sequence := sequence r; drawn := S (drawn r) |} Hr)
          as (Hf & Hd & Hs).
        destruct (replace_xy template _) as [out r2]. simpl in *.
        rewrite Hf, toString16_is_variant by done.
        split_and!; [done | lia | done].
      * destruct (IH r Hr) as (Hf & Hd & Hs).
        destruct (replace_xy template r) as [out r2]. simpl in *.
        rewrite Hf, Ascii.eqb_refl. by split_and!.
Qed.

Lemma follows_length (template out : string) :
  follows template out = true -> String.length out = String.length template.
Proof.
  revert out. induction template as [| c template IH]; intros [| d out] Hf;
    simpl in *; try done.
  apply andb_prop in Hf as [_ Hf]. f_equal. by apply IH.
Qed.

(** X7.  With a generator that returns numbers in [0,1), every
    identifier of [generateUUID()] is 36 characters of the form
    8-4-4-4-12 lowercase hexadecimal digits separated by dashes, with the
    digit 4 at the head of the third group and one of 8, 9, a, b at the
    head of the fourth (the pattern of the unit test), and making it
    takes exactly 31 draws. *)
Theorem generateUUID_has_the_v4_shape (r : RandomSource) :
  (forall n, (0 <= sequence r n)%Q /\ (sequence r n < 1)%Q) ->
  follows UUID_TEMPLATE (fst (generateUUID r)) = true
  /\ String.length (fst (generateUUID r)) = 36
  /\ drawn (snd (generateUUID r)) = drawn r + 31
  /\ sequence (snd (generateUUID r)) = sequence r.
Proof.
  intros Hr. unfold generateUUID.
  destruct (replace_xy_follows UUID_TEMPLATE r Hr) as (Hf & Hd & Hs).
  fold UUID_TEMPLATE.
  split_and!; [done | by rewrite (follows_length _ _ Hf) | done | done].
Qed.
End UuidFacts.

(** ** The store: flushing, persistence and order *)

Section StoreMoreFacts.
Import Types Utils Store StoreSpec.
Implicit Types (w : World) (s : GameAnalyticsState) (br : Browser)
  (event : PartialEvent) (e : GameAnalyticsEvent).

(** The request of a flush that passes the guards. *)
Lemma flushEvents_request w :
  pendingFlush (store w) = false -> events (store w) <> []
  -> isOnline (networkStatus (store w)) = true ->
  fetchCalls (flushEvents w)
  = fetchCalls w ++ [request (config (store w)) (events (store w))]
  /\ pendingFlush (store (flushEvents w)) = true
  /\ suspended (flushEvents w) = suspended w ++ [events (store w)]
  /\ events (store (flushEvents w)) = events (store w).
Proof.
  intros Hp Hq Hon. unfold flushEvents.
  destruct (events (store w)) as [| e q] eqn:Hevents; [done |]. simpl.
  rewrite Hp, Hon. simpl. by rewrite Hevents.
Qed.

(** [addEventToQueue] with its auto-flush test spelled out. *)
Lemma addEventToQueue_exact e w :
  addEventToQueue e w
  = runWhenIdle
      (if reaches_batch (config (store w))
            (queue_after_push (config (store w)) (events (store w)) e)
       then flushEvents (with_store (store_after_push e) w)
       else with_store (store_after_push e) w).
Proof.
  unfold addEventToQueue, reaches_batch, store_after_push, queue_after_push, overflows,
    with_store, incr_overflowCount, set_size, set_bufferInfo, set_events.
  cbn -[flushEvents JS.slice Z.of_nat Z.gtb Z.geb JS.truthy_number].
  destruct (maxQueueSize (config (store w))) as [m |];
    [destruct (_ && (_ >? m)%Z) |];
    cbn -[flushEvents JS.slice Z.of_nat Z.gtb Z.geb JS.truthy_number];
    (destruct (batchSize (config (store w))) as [n |];
     [destruct (_ && (_ >=? n)%Z) |]);
    rewrite ?Nat.add_0_r; reflexivity.
Qed.

(** X8.  The auto-flush of [addEventToQueue].  When the queue that the
    push leaves has reached [batchSize], no flush is pending, the network
    is online and the queue is not empty, exactly one request goes out:
    a POST to [apiEndpoint] with the game and play ids in its headers and
    the whole queue, the new event included, as its body; [pendingFlush]
    is set and the queue itself is not touched.  Below [batchSize] (or
    with [batchSize] unset or 0) no request goes out.  In both cases one
    idle callback is scheduled to persist the queue. *)
Theorem addEventToQueue_flushes_at_batch_size e w :
  let cfg := config (store w) in
  let q := queue_after_push cfg (events (store w)) e in
  let w' := addEventToQueue e w in
  (reaches_batch cfg q = true -> pendingFlush (store w) = false ->
   isOnline (networkStatus (store w)) = true -> q <> [] ->
   fetchCalls w' = fetchCalls w ++ [request cfg q]
   /\ pendingFlush (store w') = true
   /\ suspended w' = suspended w ++ [q]
   /\ events (store w') = q)
  /\ (reaches_batch cfg q = false ->
      fetchCalls w' = fetchCalls w
      /\ pendingFlush (store w') = pendingFlush (store w)
      /\ suspended w' = suspended w
      /\ events (store w') = q)
  /\ idleCallbacks w' = S (idleCallbacks w).
Proof.
  intros cfg q w'. subst w'. rewrite addEventToQueue_exact. fold cfg q.
  split_and!.
  - intros -> Hp Hon Hq. simpl.
    by destruct (flushEvents_request (with_store (store_after_push e) w))
      as (-> & -> & -> & ->).
  - by intros ->.
  - destruct (reaches_batch cfg q); simpl; [| done].
    by destruct (flushEvents_frame (with_store (store_after_push e) w))
      as (_ & _ & _ & _ & _ & ->).
Qed.

Lemma remove_sent_covered (eventsToSend q : list GameAnalyticsEvent) :
  q ⊆ eventsToSend -> remove_sent eventsToSend q = [].
Proof.
  intros Hsub. destruct (remove_sent eventsToSend q) as [| e rest] eqn:Hrest; [done |].
  assert (e ∈ remove_sent eventsToSend q) as Hin by (rewrite Hrest; left).
  apply elem_of_remove_sent in Hin as [Hq Hid]. exfalso. apply Hid.
  apply list_elem_of_fmap. exists e. split; [done | by apply Hsub].
Qed.

(** X9.  A flush whose response is a success empties the queue when
    nothing was pushed in between: if every event queued at the time of
    the response was in the snapshot (the queue is the snapshot, or what
    is left of it), the queue is empty afterwards, [eventCount] and
    [bufferInfo.size] are 0 and [lastFlushTime] is the time of the
    response. *)
Theorem flush_success_without_new_events_empties
    br (i : nat) (status : Z) w (eventsToSend : list GameAnalyticsEvent) :
  suspended w !! i = Some eventsToSend -> response_ok status = true ->
  events (store w) ⊆ eventsToSend ->
  let w' := flushEvents_resume br i (Fulfilled status) w in
  events (store w') = [] /\ eventCount (store w') = 0
  /\ size (bufferInfo (store w')) = 0
  /\ lastFlushTime (store w') = Some (now br)
  /\ pendingFlush (store w') = false.
Proof.
  intros Hi Hok Hsub w'.
  destruct (resume_success br i status w eventsToSend Hi Hok)
    as (Hq & Hsz & Htime & Hp & _).
  fold w' in Hq, Hsz, Htime, Hp.
  rewrite (remove_sent_covered _ _ Hsub) in Hq.
  unfold eventCount, size_matches in *. rewrite Hq in *. by split_and!.
Qed.

(** X10.  [updateNetworkStatus].  The status given is recorded.  Coming
    back online (offline before, online now) with events queued and no
    flush pending sends the whole queue in one request; a report that
    does not go from offline to online sends nothing and leaves the queue
    and the flag alone; and once the status is offline, [flushEvents]
    does nothing at all. *)
Theorem reconnecting_flushes_the_queue (online : bool) (connectionType : string) w :
  let w' := updateNetworkStatus online connectionType w in
  networkStatus (store w')
  = {| isOnline := online; lastConnectionType := connectionType |}
  /\ events (store w') = events (store w)
  /\ (isOnline (networkStatus (store w)) = false -> online = true ->
      events (store w) <> [] -> pendingFlush (store w) = false ->
      fetchCalls w' = fetchCalls w ++ [request (config (store w)) (events (store w))]
      /\ pendingFlush (store w') = true)
  /\ (isOnline (networkStatus (store w)) = true \/ online = false ->
      fetchCalls w' = fetchCalls w
      /\ pendingFlush (store w') = pendingFlush (store w))
  /\ (online = false -> flushEvents w' = w').
Proof.
  intros w'. subst w'. unfold updateNetworkStatus.
  set (w1 := with_store (set_networkStatus
                {| isOnline := online; lastConnectionType := connectionType |}) w).
  split_and!.
  - case_match; [| done].
    by destruct (flushEvents_frame w1) as ((_ & _ & _ & _ & -> & _) & _).
  - case_match; [| done]. by destruct (flushEvents_frame w1) as (_ & -> & _).
  - intros Hoff -> Hq Hp. rewrite Hoff. simpl.
    destruct (events (store w)) as [| e q] eqn:Hevents; [done |]. simpl.
    destruct (flushEvents_request w1) as (-> & -> & _); try done.
    + simpl. by rewrite Hevents.
    + simpl. by rewrite Hevents.
  - intros [Hon | ->].
    + rewrite Hon. done.
    + rewrite andb_false_r. done.
  - intros ->. rewrite andb_false_r. simpl.
    apply flushEvents_guarded. right; right. done.
Qed.

(** *** Persistence *)

Lemma initialize_restores br (options : GameAnalyticsOptions) (ls : LocalStorage)
    (r : RandomSource) (l : list GameAnalyticsEvent) :
  getItem STORAGE_KEY_EVENTS ls = Some (StoredEvents l) ->
  events (store (initialize br options (initial_world ls r))) = l
  /\ size (bufferInfo (store (initialize br options (initial_world ls r)))) = length l
  /\ isEnabled (store (initialize br options (initial_world ls r))) = true.
Proof.
  intros Hstored. unfold initialize, retrieveFromStorage. simpl.
  rewrite Hstored. by simpl.
Qed.


(** X12.  [clearEvents] empties the queue in memory only: it resets
    [bufferInfo.size] but neither the overflow counter nor the storage,
    and since an empty queue is never written, the copy persisted before
    stays in place; the next [initialize] brings the cleared events back.
    (Only [setConsent(false)] and a successful flush remove the copy.) *)
Theorem clearEvents_leaves_the_persisted_copy
    br (options : GameAnalyticsOptions) w (r : RandomSource)
    (l : list GameAnalyticsEvent) :
  getItem STORAGE_KEY_EVENTS (localStorage w) = Some (StoredEvents l) ->
  let w' := clearEvents w in
  events (store w') = []
  /\ size (bufferInfo (store w')) = 0
  /\ overflowCount (bufferInfo (store w')) = overflowCount (bufferInfo (store w))
  /\ localStorage (saveEventsToStorage w') = localStorage w
  /\ localStorage (idle_callback w') = localStorage w
  /\ events (store (initialize br options
                      (initial_world (localStorage (saveEventsToStorage w')) r))) = l.
Proof.
  intros Hstored w'. subst w'. split_and!; try done.
  - unfold idle_callback. by case_match.
  - by destruct (initialize_restores br options (localStorage w) r l Hstored).
Qed.

(** *** Order *)

Lemma filter_sublist {A : Type} (f : A -> bool) (l : list A) :
  List.filter f l `sublist_of` l.
Proof.
  induction l as [| x l IH]; simpl; [done |].
  destruct (f x); [by apply sublist_skip | by apply sublist_cons].
Qed.

Lemma slice_sublist {A : Type} (start : Z) (l : list A) :
  JS.slice start l `sublist_of` l.
Proof. unfold JS.slice. apply sublist_drop. Qed.

Lemma queue_after_push_sublist (cfg : GameAnalyticsOptions)
    (q : list GameAnalyticsEvent) e :
  queue_after_push cfg q e `sublist_of` q ++ [e].
Proof.
  unfold queue_after_push. repeat case_match; try done. apply slice_sublist.
Qed.

Lemma trackEvent_sublist br event w :
  exists added, length added <= 1
    /\ events (store (trackEvent br event w)) `sublist_of` events (store w) ++ added.
Proof.
  destruct (trackEvent_frame br event w) as (_ & [[-> _] | (e & -> & _)] & _).
  - exists []. split; [simpl; lia | by rewrite app_nil_r].
  - exists [e]. split; [done | apply queue_after_push_sublist].
Qed.

(** X13.  The queue keeps the order of arrival.  Whatever step other
    than [initialize] the store takes, the queue afterwards is made of
    events of the queue before, in the order they had, followed by at
    most one new event: no step reorders or duplicates the queued
    events. *)
Theorem queue_order_is_kept (a : Step) w :
  is_initialize a = false ->
  exists added, length added <= 1
    /\ events (store (step a w)) `sublist_of` events (store w) ++ added.
Proof.
  intros Ha.
  assert (forall w0, events (store w0) = events (store w) ->
            exists added, length added <= 1
              /\ events (store w0) `sublist_of` events (store w) ++ added) as Hsame.
  { intros w0 ->. exists []. split; [simpl; lia | by rewrite app_nil_r]. }
  assert (forall w0, events (store w0) `sublist_of` events (store w) ->
            exists added, length added <= 1
              /\ events (store w0) `sublist_of` events (store w) ++ added) as Hsub.
  { intros w0 Hw0. exists []. split; [simpl; lia | by rewrite app_nil_r]. }
  destruct a; cbn [step is_initialize] in *; try done.
  - apply Hsub. unfold setConsent. destruct consent; simpl; [done |].
    apply sublist_nil_l.
  - by apply Hsame.
  - apply Hsame. unfold updateNetworkStatus. case_match; [| done].
    by destruct (flushEvents_frame (with_store
      (set_networkStatus {| isOnline := online; lastConnectionType := connectionType |}) w))
      as (_ & -> & _).
  - apply trackEvent_sublist.
  - exists [event]. split; [done |].
    destruct (addEventToQueue_frame event w) as (_ & -> & _).
    apply queue_after_push_sublist.
  - apply Hsame. by rewrite size_matches_saveEventsToStorage.
  - apply Hsame. by destruct (flushEvents_frame w) as (_ & -> & _).
  - apply Hsub. simpl. apply sublist_nil_l.
  - apply Hsub. simpl. apply filter_sublist.
  - unfold flushEvents_resume.
    destruct (suspended w !! i) as [eventsToSend |]; [| by apply Hsame].
    unfold flush_try.
    destruct outcome as [status | reason]; [destruct (response_ok status) |];
      cbn [negb]; lazy beta iota zeta.
    + apply Hsub. simpl. apply filter_sublist.
    + unfold flush_catch. case_match; [| by apply Hsame].
      exact (trackEvent_sublist br _ (with_store _ (with_suspended _ w))).
    + unfold flush_catch. case_match; [| by apply Hsame].
      exact (trackEvent_sublist br _ (with_store _ (with_suspended _ w))).
  - apply Hsame. unfold interval_callback. case_match; [| done].
    by destruct (flushEvents_frame w) as (_ & -> & _).
  - apply Hsame. unfold idle_callback. case_match; [done |].
    by rewrite size_matches_saveEventsToStorage.
  - apply Hsame. unfold beforeunload_listener. case_match.
    + destruct (flushEvents_frame (saveEventsToStorage w)) as (_ & -> & _).
      by rewrite size_matches_saveEventsToStorage.
    + by rewrite size_matches_saveEventsToStorage.
Qed.

(** *** Counters *)

Lemma trackEvent_overflowCount br event w :
  overflowCount (bufferInfo (store w))
  <= overflowCount (bufferInfo (store (trackEvent br event w))).
Proof.
  destruct (trackEvent_cases br event w) as [-> | [(r & ->) | (r & e & ->)]];
    try done.
  destruct (addEventToQueue_frame e (with_random r w)) as (_ & _ & _ & -> & _).
  simpl. lia.
Qed.

Lemma flush_catch_counters br (message0 : string) w :
  failedSubmissions (store (flush_catch br message0 w)) = failedSubmissions (store w) + 1
  /\ overflowCount (bufferInfo (store w))
     <= overflowCount (bufferInfo (store (flush_catch br message0 w))).
Proof.
  unfold flush_catch. case_match; [| done].
  set (w1 := with_store (fun s => set_failedSubmissions (failedSubmissions s + 1) s) w).
  destruct (trackEvent_frame br (submission_error_event message0) w1)
    as ((_ & _ & _ & _ & _ & -> & _) & _).
  split; [done |]. apply (trackEvent_overflowCount br _ w1).
Qed.

Lemma step_counters (a : Step) w :
  failedSubmissions (store w) <= failedSubmissions (store (step a w))
  /\ failedSubmissions (store (step a w))
     <= failedSubmissions (store w) + (if is_settle a then 1 else 0)
  /\ overflowCount (bufferInfo (store w))
     <= overflowCount (bufferInfo (store (step a w)))
  /\ (is_settle a = false ->
      lastFlushTime (store (step a w)) = lastFlushTime (store w)).
Proof.
  destruct a; cbn [step is_settle].
  - unfold initialize. case_match; simpl; split_and!; done || lia.
  - unfold setConsent. destruct consent; simpl; split_and!; done || lia.
  - simpl. split_and!; done || lia.
  - unfold updateNetworkStatus. case_match; simpl; [| split_and!; done || lia].
    match goal with |- context [flushEvents ?w1] =>
      destruct (flushEvents_frame w1)
        as ((_ & _ & _ & _ & _ & Hf & Ht & _) & _ & Hb & _) end.
    rewrite Hf, Ht, Hb. simpl. split_and!; done || lia.
  - destruct (trackEvent_frame br event w)
      as ((_ & _ & _ & _ & _ & Hf & Ht & _) & _).
    pose proof (trackEvent_overflowCount br event w). rewrite Hf, Ht.
    split_and!; done || lia.
  - destruct (addEventToQueue_frame event w)
      as ((_ & _ & _ & _ & _ & Hf & Ht & _) & _ & _ & Ho & _).
    rewrite Hf, Ht, Ho. split_and!; done || lia.
  - rewrite size_matches_saveEventsToStorage. split_and!; done || lia.
  - destruct (flushEvents_frame w)
      as ((_ & _ & _ & _ & _ & Hf & Ht & _) & _ & Hb & _).
    rewrite Hf, Ht, Hb. split_and!; done || lia.
  - simpl. split_and!; done || lia.
  - simpl. split_and!; done || lia.
  - destruct (suspended w !! i) as [eventsToSend |] eqn:Hi;
      [| unfold flushEvents_resume; rewrite Hi; split_and!; done || lia].
    destruct (thrown_message outcome) as [message0 |] eqn:Hthrown.
    + rewrite (resume_failure _ _ _ _ _ _ Hi Hthrown). simpl.
      destruct (flush_catch_counters br message0
                  (with_suspended (delete i (suspended w)) w)) as (Hf & Ho).
      rewrite Hf. simpl in *. split_and!; done || lia.
    + destruct outcome as [status | reason]; simpl in Hthrown; [| done].
      destruct (response_ok status) eqn:Hok; [| done].
      unfold flushEvents_resume, flush_try. rewrite Hi, Hok. simpl.
      split_and!; done || lia.
  - unfold interval_callback. case_match; [| split_and!; done || lia].
    destruct (flushEvents_frame w)
      as ((_ & _ & _ & _ & _ & Hf & Ht & _) & _ & Hb & _).
    rewrite Hf, Ht, Hb. split_and!; done || lia.
  - unfold idle_callback. case_match; [split_and!; done || lia |].
    rewrite size_matches_saveEventsToStorage. simpl. split_and!; done || lia.
  - unfold beforeunload_listener. case_match.
    + destruct (flushEvents_frame (saveEventsToStorage w))
        as ((_ & _ & _ & _ & _ & Hf & Ht & _) & _ & Hb & _).
      rewrite Hf, Ht, Hb, size_matches_saveEventsToStorage. split_and!; done || lia.
    + rewrite size_matches_saveEventsToStorage. split_and!; done || lia.
Qed.

(** X14.  The counters of the store only go up.  Over any history,
    [failedSubmissions] and [bufferInfo.overflowCount] never decrease (no
    action resets them, [clearEvents] included); [failedSubmissions]
    grows by at most one per settled request; and as long as no request
    settles, [failedSubmissions] and [lastFlushTime] do not change. *)
Theorem store_counters_only_grow (history : list Step) w :
  failedSubmissions (store w) <= failedSubmissions (store (run history w))
  /\ failedSubmissions (store (run history w))
     <= failedSubmissions (store w) + length (List.filter is_settle history)
  /\ overflowCount (bufferInfo (store w))
     <= overflowCount (bufferInfo (store (run history w)))
  /\ (forallb (fun a => negb (is_settle a)) history = true ->
      failedSubmissions (store (run history w)) = failedSubmissions (store w)
      /\ lastFlushTime (store (run history w)) = lastFlushTime (store w)).
Proof.
  induction history as [| a history IH] using rev_ind.
  - simpl. split_and!; done || lia.
  - destruct IH as (Hlow & Hhigh & Hover & Hquiet).
    rewrite run_snoc, List.filter_app, length_app.
    destruct (step_counters a (run history w)) as (Hlow' & Hhigh' & Hover' & Htime').
    split_and!.
    + lia.
    + simpl. destruct (is_settle a); simpl in *; lia.
    + lia.
    + rewrite forallb_app. simpl. intros Hall.
      apply andb_prop in Hall as [Hall Ha]. rewrite andb_true_r in Ha.
      apply negb_true_iff in Ha. destruct (Hquiet Hall) as [Hf Ht].
      rewrite Ha in Hhigh'. rewrite Htime' by done. split; [lia | done].
Qed.

(** *** Revoked consent *)

Lemma revoked_gate br s :
  JS.truthy_bool (consentRequired (config s)) = true -> hasConsent s = false ->
  isTrackingAllowed br s = false.
Proof.
  intros Hreq Hno. unfold isTrackingAllowed. rewrite Hreq, Hno.
  by destruct (isEnabled s).
Qed.

Lemma trackEvent_rejected br event w :
  isTrackingAllowed br (store w) = false -> trackEvent br event w = w.
Proof. intros Hgate. unfold trackEvent. by rewrite Hgate. Qed.

(** X15.  A revocation stays in force.  In a store that requires
    consent, after [setConsent(false)] and through every history that
    neither grants consent again, nor initialises the store anew, nor
    calls [addEventToQueue] directly, the queue stays empty, nothing is
    written under the events key and no request goes out: [trackEvent]
    rejects every event, the error event of a failing flush included, and
    every flush finds the queue empty. *)
Theorem revoked_consent_stays_in_force (history : list Step) w :
  JS.truthy_bool (consentRequired (config (store w))) = true ->
  forallb leaves_consent_revoked history = true ->
  let w' := run history (setConsent false w) in
  events (store w') = []
  /\ hasConsent (store w') = false
  /\ getItem STORAGE_KEY_EVENTS (localStorage w') = None
  /\ fetchCalls w' = fetchCalls w.
Proof.
  intros Hreq Hall w'. subst w'.
  assert (events (store (run history (setConsent false w))) = []
          /\ hasConsent (store (run history (setConsent false w))) = false
          /\ JS.truthy_bool
               (consentRequired (config (store (run history (setConsent false w)))))
             = true
          /\ getItem STORAGE_KEY_EVENTS
               (localStorage (run history (setConsent false w))) = None
          /\ fetchCalls (run history (setConsent false w)) = fetchCalls w) as Hinv.
  { induction history as [| a history IH] using rev_ind.
    - simpl. split_and!; try done.
      unfold getItem, removeItem. simpl.
      rewrite lookup_delete_ne by done. apply lookup_delete_eq.
    - rewrite forallb_app in Hall. simpl in Hall.
      apply andb_prop in Hall as [Hall Ha]. rewrite andb_true_r in Ha.
      destruct (IH Hall) as (Hq & Hno & Hcfg & Hls & Hcalls). clear IH.
      rewrite run_snoc. set (w0 := run history (setConsent false w)) in *.
      assert (forall br event, trackEvent br event w0 = w0) as Htrack
        by (intros br event; by apply trackEvent_rejected, revoked_gate).
      assert (flushEvents w0 = w0) as Hflush
        by (apply flushEvents_guarded; auto).
      assert (saveEventsToStorage w0 = w0) as Hsave
        by (unfold saveEventsToStorage; by rewrite Hq).
      destruct a; cbn [step leaves_consent_revoked] in *; try done.
      + destruct consent; [done |]. unfold setConsent. simpl.
        split_and!; try done. unfold getItem, removeItem. simpl.
        rewrite lookup_delete_ne by done. apply lookup_delete_eq.
      + unfold updateNetworkStatus. simpl. rewrite Hq. simpl.
        rewrite andb_false_r. simpl. by split_and!.
      + by rewrite Htrack.
      + by rewrite Hsave.
      + by rewrite Hflush.
      + simpl. rewrite Hq. simpl. by split_and!.
      + unfold flushEvents_resume.
        destruct (suspended w0 !! i) as [eventsToSend |]; [| done].
        set (w1 := with_suspended (delete i (suspended w0)) w0).
        assert (forall message0,
                  let w2 := flush_finally (flush_catch br message0 w1) in
                  events (store w2) = [] /\ hasConsent (store w2) = false
                  /\ JS.truthy_bool (consentRequired (config (store w2))) = true
                  /\ getItem STORAGE_KEY_EVENTS (localStorage w2) = None
                  /\ fetchCalls w2 = fetchCalls w) as Hcatch.
        { intros message0. unfold flush_catch.
          case_match; [rewrite trackEvent_rejected by by apply revoked_gate |];
            simpl; done. }
        unfold flush_try.
        destruct outcome as [status | reason]; [destruct (response_ok status) |];
          cbn [negb]; lazy beta iota zeta; try apply Hcatch.
        simpl. rewrite Hq. simpl. split_and!; try done.
        unfold getItem, removeItem. simpl. apply lookup_delete_eq.
      + unfold interval_callback. rewrite Hq. done.
      + unfold idle_callback. case_match; [done |].
        unfold saveEventsToStorage. simpl. rewrite Hq. done.
      + unfold beforeunload_listener. rewrite Hsave, Hq. done. }
  by destruct Hinv as (? & ? & _ & ? & ?).
Qed.
End StoreMoreFacts.

(** ** [extractElementData] *)

Section DomFacts.
Import Dom.








End DomFacts.

(** ** [throttle] and [debounce] *)

Section PerformanceFacts.
Import Performance.
Context {A R : Type}.
Implicit Types (t : Throttle A R) (d : Debounce A) (trace : list (Tick A)).

Lemma spaced_snoc (gap : Z) (times : list Z) (time : Z) :
  spaced gap times ->
  (forall before, last times = Some before -> (before + gap <= time)%Z) ->
  spaced gap (times ++ [time]).
Proof.
  induction times as [| t1 times IH]; intros Hsp Hlast; simpl; [done |].
  destruct times as [| t2 times]; simpl in *.
  - split; [by apply Hlast | done].
  - destruct Hsp as [H12 Hsp]. split; [done |]. by apply IH.
Qed.

(** What a throttled wrapper keeps true as time goes by: the
    invocations so far are spaced, the last of them happened at [t_last],
    which is not in the future, and a pending timer is due one [wait]
    after it. *)
Lemma throttled_cases (func : A -> R) (wait now : Z) (args : A) t :
  ((now - t_last t >= wait)%Z \/ (now < t_last t)%Z)
  /\ fst (throttled func wait now args t)
     = {| t_timeout := None; t_result := Some (func args); t_last := now;
          t_invoked := t_invoked t ++ [(now, args)] |}
  \/ (t_timeout t = None
      /\ fst (throttled func wait now args t)
         = {| t_timeout := Some (args, (t_last t + wait)%Z); t_result := t_result t;
              t_last := t_last t; t_invoked := t_invoked t |})
  \/ (is_Some (t_timeout t) /\ fst (throttled func wait now args t) = t).
Proof.
  unfold throttled.
  destruct ((wait - (now - t_last t) <=? 0)%Z || (wait - (now - t_last t) >? wait)%Z)
    eqn:Hcond.
  - left. split; [| done]. apply orb_true_iff in Hcond.
    rewrite Z.leb_le, Z.gtb_lt in Hcond. lia.
  - right. destruct (t_timeout t) as [pending |] eqn:Ht.
    + right. split; [by eexists | done].
    + left. split; [done |]. simpl. do 2 f_equal. f_equal. lia.
Qed.

Lemma throttle_run_spaced (func : A -> R) (wait : Z) trace :
  forall t (from : Z),
    spaced wait (fst <$> t_invoked t) ->
    (forall before, last (fst <$> t_invoked t) = Some before -> before = t_last t) ->
    (t_last t <= from)%Z ->
    (forall args due, t_timeout t = Some (args, due) -> due = (t_last t + wait)%Z) ->
    throttle_timely func wait from trace t ->
    spaced wait (fst <$> t_invoked (throttle_run func wait trace t)).
Proof.
  induction trace as [| e trace IH]; intros t from Hsp Hlast Hfrom Hdue Htimely;
    [done |].
  destruct Htimely as (Hnow & Hfire & Htimely).
  change (throttle_run func wait (e :: trace) t)
    with (throttle_run func wait trace (throttle_tick func wait e t)).
  destruct e as [now args | now]; cbn [throttle_tick tick_time] in *.
  - destruct (throttled_cases func wait now args t)
      as [[Hlate Heq] | [[Hnone Heq] | [Hsome Heq]]]; rewrite Heq in *.
    + apply (IH _ now); [| | | | exact Htimely]; simpl.
      * rewrite fmap_app. apply spaced_snoc; [done |].
        intros before Hbefore. apply Hlast in Hbefore. simpl. lia.
      * intros before. rewrite fmap_app. simpl. rewrite last_snoc. by intros [= <-].
      * lia.
      * done.
    + apply (IH _ now); [| | | | exact Htimely]; simpl.
      * done.
      * done.
      * lia.
      * by intros args' due' [= <- <-].
    + apply (IH _ now); [done | done | lia | done | exact Htimely].
  - unfold throttle_timer in *.
    destruct (t_timeout t) as [[args due] |] eqn:Ht.
    + specialize (Hdue args due eq_refl).
      apply (IH _ now); [| | | | exact Htimely]; simpl.
      * rewrite fmap_app. apply spaced_snoc; [done |].
        intros before Hbefore. apply Hlast in Hbefore. simpl. lia.
      * intros before. rewrite fmap_app. simpl. rewrite last_snoc. by intros [= <-].
      * lia.
      * done.
    + apply (IH _ now); [done | done | lia | | exact Htimely].
      intros args due. by rewrite Ht.
Qed.

Lemma throttle_run_provenance (func : A -> R) (wait : Z) trace :
  forall t args,
    args ∈ (snd <$> t_invoked (throttle_run func wait trace t)) ->
    args ∈ (snd <$> t_invoked t)
    \/ (exists due, t_timeout t = Some (args, due))
    \/ (exists now, called now args ∈ trace).
Proof.
  induction trace as [| e trace IH]; intros t args Hin; [by left |].
  change (throttle_run func wait (e :: trace) t)
    with (throttle_run func wait trace (throttle_tick func wait e t)) in Hin.
  apply IH in Hin as [Hin | [(due & Hpending) | (now & Hcall)]];
    [| | right; right; exists now; by right].
  - destruct e as [now args' | now]; cbn [throttle_tick] in Hin.
    + destruct (throttled_cases func wait now args' t)
        as [[_ Heq] | [[_ Heq] | [_ Heq]]]; rewrite Heq in Hin; simpl in Hin;
        [| by left | by left].
      rewrite fmap_app in Hin. apply elem_of_app in Hin as [Hin | Hin]; [by left |].
      apply list_elem_of_singleton in Hin as ->.
      right; right. exists now. left.
    + unfold throttle_timer in Hin.
      destruct (t_timeout t) as [[args' due] |] eqn:Ht; simpl in Hin; [| by left].
      rewrite fmap_app in Hin. apply elem_of_app in Hin as [Hin | Hin]; [by left |].
      apply list_elem_of_singleton in Hin as ->. right; left. by exists due.
  - destruct e as [now args' | now]; cbn [throttle_tick] in Hpending.
    + destruct (throttled_cases func wait now args' t)
        as [[_ Heq] | [[_ Heq] | [_ Heq]]]; rewrite Heq in Hpending;
        simpl in Hpending.
      * done.
      * injection Hpending as <- <-. right; right. exists now. left.
      * right; left. by exists due.
    + unfold throttle_timer in Hpending.
      destruct (t_timeout t) as [[args' due'] |] eqn:Ht; simpl in Hpending; [done |].
      congruence.
Qed.

(** X17.  [throttle] limits the rate.  Over every trace of calls and
    timer callbacks in which the clock starts at 0 or later and does not
    go back, and no timer callback runs before its timer is due, any two
    consecutive invocations of [func] are at least [wait] milliseconds
    apart; and [func] is only ever invoked with the arguments of a call
    that was made. *)
Theorem throttle_spaces_the_invocations
    (func : A -> R) (wait from : Z) trace :
  (0 <= from)%Z ->
  throttle_timely func wait from trace throttle_init ->
  let t := throttle_run func wait trace throttle_init in
  spaced wait (fst <$> t_invoked t)
  /\ (forall args, args ∈ (snd <$> t_invoked t) -> exists now, called now args ∈ trace).
Proof.
  intros Hfrom Htimely t. split.
  - by apply (throttle_run_spaced func wait trace throttle_init from).
  - intros args Hin.
    apply throttle_run_provenance in Hin as [Hin | [(due & Hpending) | Hcall]];
      [| done | done].
    simpl in Hin. by apply elem_of_nil in Hin.
Qed.

Lemma last_cons_default (l : list A) (a d d' : A) :
  List.last (a :: l) d = List.last (a :: l) d'.
Proof.
  revert a. induction l as [| b l IH]; intros a; [done |].
  change (List.last (b :: l) d = List.last (b :: l) d'). apply IH.
Qed.

Lemma debounce_burst_spec (immediate : bool) (rest : list A) :
  forall (first : A) d,
    d_timeout (debounce_burst immediate (first :: rest) d) = Some (List.last rest first)
    /\ d_invoked (debounce_burst immediate (first :: rest) d)
       = if immediate && negb (bool_decide (is_Some (d_timeout d)))
         then d_invoked d ++ [first] else d_invoked d.
Proof.
  induction rest as [| second rest IH]; intros first d; [done |].
  specialize (IH second (debounced immediate first d)).
  destruct IH as [Htimeout Hinvoked].
  change (debounce_burst immediate (first :: second :: rest) d)
    with (debounce_burst immediate (second :: rest) (debounced immediate first d)).
  rewrite Hinvoked. split.
  - rewrite Htimeout. f_equal.
    change (List.last (second :: rest) first) with
      (match rest with [] => second | _ :: _ => List.last rest first end).
    destruct rest as [| third rest]; [done |]. apply last_cons_default.
  - simpl. by rewrite andb_false_r.
Qed.

(** X18.  [debounce] over a burst of calls with no timer running in
    between, on a wrapper with no timer pending.  In the default
    (trailing) mode no call of the burst invokes [func]; when the timer
    runs, [func] is invoked once, with the arguments of the last call.
    With [immediate], [func] is invoked once, at the first call and with
    its arguments, and the timer invokes nothing; in both modes the timer
    leaves no timer pending. *)
Theorem debounce_invokes_once_per_burst (first : A) (rest : list A) d :
  d_timeout d = None ->
  (d_invoked (debounce_burst false (first :: rest) d) = d_invoked d
   /\ d_invoked (debounce_later false (debounce_burst false (first :: rest) d))
      = d_invoked d ++ [List.last rest first])
  /\ (d_invoked (debounce_burst true (first :: rest) d) = d_invoked d ++ [first]
      /\ d_invoked (debounce_later true (debounce_burst true (first :: rest) d))
         = d_invoked d ++ [first])
  /\ d_timeout (debounce_later false (debounce_burst false (first :: rest) d)) = None
  /\ d_timeout (debounce_later true (debounce_burst true (first :: rest) d)) = None.
Proof.
  intros Hnone.
  destruct (debounce_burst_spec false rest first d) as [Ht Hi].
  destruct (debounce_burst_spec true rest first d) as [Ht' Hi'].
  rewrite Hnone in Hi'. simpl in Hi, Hi'.
  unfold debounce_later. rewrite Ht, Ht'. simpl. rewrite Hi, Hi'. done.
Qed.
End PerformanceFacts.

(** ** The further properties on concrete inputs *)

(** The wrap-around case of the unit tests: capacity 3, three pushes, a
    dequeue and a fourth push. *)
Lemma buffer_dequeue_is_fifo_witness :
  let b := BufferOps.after 3 CircularBuffer.discard_oldest
             [BufferOps.op_push "item1"; BufferOps.op_push "item2";
              BufferOps.op_push "item3"; BufferOps.op_dequeue;
              BufferOps.op_push "item4"]%string in
  snd (CircularBuffer.dequeue b) = Some "item2"%string
  /\ CircularBuffer.getItems (fst (CircularBuffer.dequeue b))
     = ["item3"; "item4"]%string.
Proof.
  intros b.
  destruct (buffer_dequeue_is_fifo 3 CircularBuffer.discard_oldest
              [BufferOps.op_push "item1"; BufferOps.op_push "item2";
               BufferOps.op_push "item3"; BufferOps.op_dequeue;
               BufferOps.op_push "item4"]%string) as (Hret & Hrest & _); [lia |].
  split; [etrans; [exact Hret | vm_compute; reflexivity]
         | etrans; [exact Hrest | vm_compute; reflexivity]].
Defined.

Lemma buffer_push_with_room_appends_witness :
  let b := BufferOps.after 3 CircularBuffer.error
             [BufferOps.op_push "item1"; BufferOps.op_push "item2"]%string in
  CircularBuffer.getItems (fst (CircularBuffer.push "item3"%string b))
  = ["item1"; "item2"; "item3"]%string.
Proof.
  intros b.
  destruct (buffer_push_with_room_appends 3 CircularBuffer.error
              [BufferOps.op_push "item1"; BufferOps.op_push "item2"]%string
              "item3"%string) as (_ & Hitems & _); [lia | vm_compute; reflexivity |].
  etrans; [exact Hitems | vm_compute; reflexivity].
Defined.

Lemma buffer_discard_newest_when_full_witness :
  let b := BufferOps.after 3 CircularBuffer.discard_newest
             [BufferOps.op_push "item1"; BufferOps.op_push "item2";
              BufferOps.op_push "item3"]%string in
  snd (CircularBuffer.push "item4"%string b) = CircularBuffer.Returned false
  /\ CircularBuffer.getItems (fst (CircularBuffer.push "item4"%string b))
     = ["item1"; "item2"; "item3"]%string
  /\ CircularBuffer.getOverflowCount (fst (CircularBuffer.push "item4"%string b)) = 1.
Proof.
  intros b.
  destruct (buffer_discard_newest_when_full 3
              [BufferOps.op_push "item1"; BufferOps.op_push "item2";
               BufferOps.op_push "item3"]%string "item4"%string)
    as (Hret & Hitems & _ & Hcount); [lia | vm_compute; reflexivity |].
  split; [exact Hret |].
  split; [etrans; [exact Hitems | vm_compute; reflexivity]
         | etrans; [exact Hcount | vm_compute; reflexivity]].
Defined.

Lemma buffer_discard_oldest_when_full_witness :
  let b := BufferOps.after 3 CircularBuffer.discard_oldest
             [BufferOps.op_push "item1"; BufferOps.op_push "item2";
              BufferOps.op_push "item3"; BufferOps.op_dequeue;
              BufferOps.op_push "item4"]%string in
  CircularBuffer.getItems (fst (CircularBuffer.push "item5"%string b))
  = ["item3"; "item4"; "item5"]%string.
Proof.
  intros b.
  destruct (buffer_discard_oldest_when_full 3
              [BufferOps.op_push "item1"; BufferOps.op_push "item2";
               BufferOps.op_push "item3"; BufferOps.op_dequeue;
               BufferOps.op_push "item4"]%string "item5"%string)
    as (_ & Hitems & _); [lia | vm_compute; reflexivity |].
  etrans; [exact Hitems | vm_compute; reflexivity].
Defined.

Lemma buffer_size_bookkeeping_witness :
  let b := BufferOps.after 5 CircularBuffer.discard_newest
             [BufferOps.op_push "item1"; BufferOps.op_push "item2"]%string in
  CircularBuffer.getSize b = 2 /\ CircularBuffer.getCapacity b = 5.
Proof.
  intros b.
  destruct (buffer_size_bookkeeping 5 CircularBuffer.discard_newest
              [BufferOps.op_push "item1"; BufferOps.op_push "item2"]%string)
    as (Hsize & _ & Hcap & _); [lia |].
  split; [etrans; [exact Hsize | vm_compute; reflexivity] | exact Hcap].
Defined.

Lemma buffer_drain_round_trip_witness :
  let b := BufferOps.after 3 CircularBuffer.discard_oldest
             [BufferOps.op_push "item1"; BufferOps.op_push "item2"]%string in
  snd (CircularBuffer.drain b) = ["item1"; "item2"]%string
  /\ CircularBuffer.getItems
       (CircularBuffer.push_all (snd (CircularBuffer.drain b))
                                (fst (CircularBuffer.drain b)))
     = ["item1"; "item2"]%string.
Proof.
  intros b.
  destruct (buffer_drain_round_trip 3 CircularBuffer.discard_oldest
              [BufferOps.op_push "item1"; BufferOps.op_push "item2"]%string)
    as (Hdrained & _ & _ & _ & Hback); [lia |].
  split; [etrans; [exact Hdrained | vm_compute; reflexivity]
         | etrans; [exact Hback | vm_compute; reflexivity]].
Defined.

(** A generator stuck at 1/2 gives the digit 8 everywhere but at the
    version digit. *)
Lemma generateUUID_has_the_v4_shape_witness :
  fst (Utils.generateUUID Scenario.halves)
  = "88888888-8888-4888-8888-888888888888"%string
  /\ UuidShape.follows UuidShape.UUID_TEMPLATE (fst (Utils.generateUUID Scenario.halves))
     = true
  /\ Utils.drawn (snd (Utils.generateUUID Scenario.halves)) = 31.
Proof.
  destruct (generateUUID_has_the_v4_shape Scenario.halves) as (Hshape & _ & Hdrawn & _).
  - intros n. split; [discriminate | reflexivity].
  - split; [vm_compute; reflexivity |]. split; [exact Hshape | exact Hdrawn].
Defined.

(** Batch size 2 with one event queued: the second event makes the
    request with both events; and a flush answered with 200 and nothing
    pushed in between leaves no event. *)
Lemma addEventToQueue_flushes_at_batch_size_witness :
  let w := MoreScenarios.one_of_two in
  let e := Scenario.item "B"%string in
  let w' := Store.addEventToQueue e w in
  Store.fetchCalls w'
  = [StoreSpec.request (Types.config (Store.store w))
       (Types.events (Store.store w) ++ [e])]
  /\ Types.pendingFlush (Store.store w') = true
  /\ Store.fetchCalls (Store.addEventToQueue e Scenario.started) = [].
Proof.
  intros w e w'.
  destruct (addEventToQueue_flushes_at_batch_size e w) as (Hflush & _ & _).
  destruct (addEventToQueue_flushes_at_batch_size e Scenario.started)
    as (_ & Hquiet & _).
  split; [| split].
  - etrans; [apply Hflush; vm_compute; (reflexivity || discriminate) |].
    vm_compute. reflexivity.
  - apply Hflush; vm_compute; (reflexivity || discriminate).
  - etrans; [apply Hquiet; vm_compute; reflexivity | vm_compute; reflexivity].
Defined.

Lemma flush_success_without_new_events_empties_witness :
  let w' := Store.flushEvents_resume Scenario.browser 0 (Store.Fulfilled 200)
              Scenario.flushing in
  Types.events (Store.store w') = []
  /\ Types.lastFlushTime (Store.store w') = Some 1700000000000%Z.
Proof.
  intros w'.
  destruct (flush_success_without_new_events_empties Scenario.browser 0 200
              Scenario.flushing (Types.events (Store.store Scenario.three_tracked)))
    as (Hq & _ & _ & Htime & _).
  - vm_compute. reflexivity.
  - vm_compute. reflexivity.
  - replace (Types.events (Store.store Scenario.flushing))
      with (Types.events (Store.store Scenario.three_tracked))
      by (vm_compute; reflexivity).
    done.
  - split; [exact Hq | exact Htime].
Defined.

Lemma reconnecting_flushes_the_queue_witness :
  let w := MoreScenarios.offline in
  let w' := Store.updateNetworkStatus true "wifi"%string w in
  Store.flushEvents w = w
  /\ Store.fetchCalls w'
     = [StoreSpec.request (Types.config (Store.store w)) (Types.events (Store.store w))]
  /\ Types.pendingFlush (Store.store w') = true.
Proof.
  intros w w'.
  destruct (reconnecting_flushes_the_queue false "none"%string Scenario.three_tracked)
    as (_ & _ & _ & _ & Hoffline).
  destruct (reconnecting_flushes_the_queue true "wifi"%string w)
    as (_ & _ & Hback & _).
  split; [by apply Hoffline |].
  split.
  - etrans; [apply Hback; vm_compute; (reflexivity || discriminate) |].
    vm_compute. reflexivity.
  - apply Hback; vm_compute; (reflexivity || discriminate).
Defined.


Lemma clearEvents_leaves_the_persisted_copy_witness :
  let w := MoreScenarios.persisted in
  let w' := Store.clearEvents w in
  Types.events (Store.store w') = []
  /\ length
       (Types.events
          (Store.store (Store.initialize Scenario.browser Scenario.options
                          (Store.initial_world
                             (Store.localStorage (Store.saveEventsToStorage w'))
                             Scenario.halves)))) = 3.
Proof.
  intros w w'.
  destruct (clearEvents_leaves_the_persisted_copy Scenario.browser Scenario.options w
              Scenario.halves (Types.events (Store.store Scenario.three_tracked)))
    as (Hq & _ & _ & _ & _ & Hback); [vm_compute; reflexivity |].
  split; [exact Hq |]. fold w' in Hback. rewrite Hback. vm_compute. reflexivity.
Defined.

Lemma queue_order_is_kept_witness :
  exists added,
    length added <= 1
    /\ Types.events
         (Store.store (Store.step (Store.do_filterEvents
                                     (fun e => bool_decide (Types.target e = Some "#b"%string)))
                                  Scenario.three_tracked))
       `sublist_of` Types.events (Store.store Scenario.three_tracked) ++ added.
Proof.
  apply (queue_order_is_kept
           (Store.do_filterEvents (fun e => bool_decide (Types.target e = Some "#b"%string)))
           Scenario.three_tracked).
  reflexivity.
Defined.

Lemma store_counters_only_grow_witness :
  let history := [Store.do_clearEvents; Store.timer_ticks;
                  Store.do_trackEvent Scenario.browser (Scenario.click "#d"%string)] in
  Types.failedSubmissions (Store.store (Store.run history Scenario.flushing))
  = Types.failedSubmissions (Store.store Scenario.flushing)
  /\ Types.lastFlushTime (Store.store (Store.run history Scenario.flushing))
     = Types.lastFlushTime (Store.store Scenario.flushing).
Proof.
  intros history.
  destruct (store_counters_only_grow history Scenario.flushing) as (_ & _ & _ & Hquiet).
  apply Hquiet. reflexivity.
Defined.

(** Consent granted, two events queued and persisted, consent revoked:
    a tracked event, an idle slot, a timer tick, a flush, a reconnect, a
    late rejection and the page unloading leave nothing queued, stored or
    sent. *)
Lemma revoked_consent_stays_in_force_witness :
  let w' := Store.run MoreScenarios.after_revocation
              (Store.setConsent false MoreScenarios.consented) in
  length (Types.events (Store.store MoreScenarios.consented)) = 2
  /\ Types.events (Store.store w') = []
  /\ Utils.getItem Store.STORAGE_KEY_EVENTS (Store.localStorage w') = None
  /\ Store.fetchCalls w' = [].
Proof.
  intros w'.
  destruct (revoked_consent_stays_in_force MoreScenarios.after_revocation
              MoreScenarios.consented) as (Hq & _ & Hls & Hcalls);
    [vm_compute; reflexivity | reflexivity |].
  split; [vm_compute; reflexivity |]. split; [exact Hq |]. split; [exact Hls |].
  etrans; [exact Hcalls | vm_compute; reflexivity].
Defined.


(** Three calls within 20 ms, the timer, a call 50 ms after it and the
    second timer: [func] runs at 1000, 1100 and 1200, the second time
    with the arguments of the second call. *)
Lemma throttle_spaces_the_invocations_witness :
  let t := Performance.throttle_run (fun s : string => s) 100
             MoreScenarios.throttle_trace Performance.throttle_init in
  Performance.spaced 100 (fst <$> Performance.t_invoked t)
  /\ Performance.t_invoked t
     = [(1000, "first"); (1100, "second"); (1200, "fourth")]%Z%string.
Proof.
  intros t.
  destruct (throttle_spaces_the_invocations (fun s : string => s) 100 1000
              MoreScenarios.throttle_trace) as (Hspaced & _).
  - lia.
  - vm_compute. repeat split; discriminate.
  - split; [exact Hspaced | vm_compute; reflexivity].
Defined.

Lemma debounce_invokes_once_per_burst_witness :
  Performance.d_invoked
    (Performance.debounce_later false
       (Performance.debounce_burst false ["a"; "b"; "c"]%string
          Performance.debounce_init)) = ["c"]%string
  /\ Performance.d_invoked
       (Performance.debounce_burst true ["a"; "b"; "c"]%string
          Performance.debounce_init) = ["a"]%string.
Proof.
  destruct (debounce_invokes_once_per_burst "a"%string ["b"; "c"]%string
              Performance.debounce_init eq_refl)
    as ((_ & Htrailing) & (Hleading & _) & _).
  split; [exact Htrailing | exact Hleading].
Defined.
